(** * Bcp.js: a shallow embedding of the bcp orchestration layer

    The development follows [lib/Bcp.js]: the command argument builder
    ([getCommonArgs]), the option merging and path helpers, the field
    codec ([fieldDeserialize]), the delimited reader ([Bcp.readExport])
    and the two pipelines [bulkExport] and [prepareBulkInsert].

    JavaScript strings are modelled by [string]: a sequence of code units,
    here restricted to the range 0..255.  Numeric options are integers. *)

From Stdlib Require Import String Ascii ZArith List Lia Bool.
From stdpp Require Import base option gmap strings list pretty.

Local Open Scope Z_scope.
Local Open Scope nat_scope.

(** ** JavaScript values appearing in option objects *)

Inductive JSVal :=
| JUndefined
| JNull
| JBool (b : bool)
| JNum (n : Z)
| JStr (s : string).

(** ToBoolean *)
Definition truthy (v : JSVal) : bool :=
  match v with
  | JUndefined | JNull => false
  | JBool b => b
  | JNum n => negb (Z.eqb n 0)
  | JStr s => negb (String.eqb s "")
  end.

(** [a || b] *)
Definition js_or (a b : JSVal) : JSVal := if truthy a then a else b.

(** [String(v)] *)
Definition js_String (v : JSVal) : string :=
  match v with
  | JUndefined => "undefined"
  | JNull => "null"
  | JBool true => "true"
  | JBool false => "false"
  | JNum n => pretty n
  | JStr s => s
  end.

(** A plain object used as a record of options. *)
Abbreviation JSObject := (gmap string JSVal).

(** [o.k]: a missing property reads as [undefined]. *)
Definition prop (o : JSObject) (k : string) : JSVal := default JUndefined (o !! k).

(** Truthiness of an optional string member ([undefined], [null] or a string). *)
Definition truthy_str (o : option string) : bool :=
  match o with
  | Some s => negb (String.eqb s "")
  | None => false
  end.

(** Truthiness of an optional numeric member. *)
Definition truthy_num (o : option Z) : bool :=
  match o with
  | Some n => negb (Z.eqb n 0)
  | None => false
  end.

Definition str_of (o : option string) : string := default "" o.
Definition num_of (o : option Z) : Z := default 0%Z o.

(** ** JSON.stringify on strings *)

Definition dquote : ascii := "034"%char.

Definition hex_digit (n : nat) : ascii :=
  match n with
  | 0 => "0" | 1 => "1" | 2 => "2" | 3 => "3" | 4 => "4" | 5 => "5" | 6 => "6"
  | 7 => "7" | 8 => "8" | 9 => "9" | 10 => "a" | 11 => "b" | 12 => "c"
  | 13 => "d" | 14 => "e" | _ => "f"
  end%char.

(** The escape of one code unit inside a JSON string literal. *)
Definition json_escape_char (c : ascii) : string :=
  let n := nat_of_ascii c in
  if Nat.eqb n 8 then "\b"
  else if Nat.eqb n 9 then "\t"
  else if Nat.eqb n 10 then "\n"
  else if Nat.eqb n 12 then "\f"
  else if Nat.eqb n 13 then "\r"
  else if Nat.eqb n 34 then String "\" (String dquote "")
  else if Nat.eqb n 92 then "\\"
  else if Nat.ltb n 32 then
    "\u00" +:+ String (hex_digit (n / 16)) (String (hex_digit (n mod 16)) "")
  else String c "".

Fixpoint json_escape (s : string) : string :=
  match s with
  | EmptyString => ""
  | String c s' => json_escape_char c +:+ json_escape s'
  end.

(** [JSON.stringify(s)] for a string [s]. *)
Definition JSON_stringify (s : string) : string :=
  String dquote (json_escape s +:+ String dquote "").

(** ** Array.prototype.join *)

Fixpoint join (sep : string) (l : list string) : string :=
  match l with
  | [] => ""
  | [x] => x
  | x :: rest => x +:+ sep +:+ join sep rest
  end.

(** ** The configuration object built by the [Bcp] constructor *)

Record Bcp := {
  exec : string;
  timeout : Z;
  killSignal : string;
  tmp : string;
  database : option string;
  schema : string;
  packetSize : option Z;
  batchSize : option Z;
  unicode : bool;
  codePage : option string;
  errorFile : option string;
  useIdentity : bool;
  firstRow : option Z;
  order : option string;
  rowsPerBatch : option Z;
  kbPerBatch : option Z;
  tabLock : bool;
  checkConstraints : bool;
  fireTriggers : bool;
  inputFile : option string;
  keepNulls : bool;
  readOnly : bool;
  lastRow : option Z;
  maxErrors : option Z;
  password : option string;
  quotedIdentifiers : bool;
  rowTerminator : option string;
  regional : bool;
  server : option string;
  fieldTerminator : option string;
  trusted : bool;
  user : option string
}.

(** ** getCommonArgs *)

(** The argument array holds strings and numbers. *)
Inductive Token :=
| TStr (s : string)
| TNum (n : Z).

Definition token_string (t : Token) : string :=
  match t with
  | TStr s => s
  | TNum n => pretty n
  end.

(** [if (c) { args.push(t1); args.push(t2); ... }] *)
Definition push_when {A} (c : bool) (toks : list A) (args : list A) : list A :=
  if c then args ++ toks else args.

(** [bcp.rowTerminator[0]] is one of the two characters of the [switch]. *)
Definition starts_with_dash_or_slash (s : string) : bool :=
  match s with
  | String c _ => Ascii.eqb c "-" || Ascii.eqb c "/"
  | EmptyString => false
  end.

(** What the [switch] shared by [-r] and [-t] pushes. *)
Definition terminator_tokens (flag : string) (term : string) : list Token :=
  if starts_with_dash_or_slash term
  then [TStr (flag +:+ term)]
  else [TStr flag; TStr (JSON_stringify term)].

(** The [hints] array. *)
Definition getHints (bcp : Bcp) : list string :=
  let hints := [] in
  let hints := push_when (truthy_str (order bcp))
                 ["ORDER(" +:+ str_of (order bcp) +:+ ")"] hints in
  let hints := push_when (truthy_num (rowsPerBatch bcp))
                 ["ROWS_PER_BATCH=" +:+ pretty (num_of (rowsPerBatch bcp))] hints in
  let hints := push_when (truthy_num (kbPerBatch bcp))
                 ["KILOBYTES_PER_BATCH=" +:+ pretty (num_of (kbPerBatch bcp))] hints in
  let hints := push_when (tabLock bcp) ["TABLOCK"] hints in
  let hints := push_when (checkConstraints bcp) ["CHECK_CONSTRAINTS"] hints in
  let hints := push_when (fireTriggers bcp) ["FIRE_TRIGGERS"] hints in
  hints.

Definition getCommonArgs (bcp : Bcp) (omitFormat : bool) : list Token :=
  let args := [] in
  let args := push_when (truthy_num (packetSize bcp))
                [TStr "-a"; TNum (num_of (packetSize bcp))] args in
  let args := push_when (truthy_num (batchSize bcp))
                [TStr "-b"; TNum (num_of (batchSize bcp))] args in
  let args := push_when (negb omitFormat)
                [if unicode bcp then TStr "-w" else TStr "-c"] args in
  let args := push_when (truthy_str (codePage bcp) && negb omitFormat)
                [TStr "-C"; TStr (JSON_stringify (str_of (codePage bcp)))] args in
  let args := push_when (truthy_str (errorFile bcp))
                [TStr "-e"; TStr (JSON_stringify (str_of (errorFile bcp)))] args in
  let args := push_when (useIdentity bcp) [TStr "-E"] args in
  let args := push_when (truthy_num (firstRow bcp))
                [TStr "-F"; TNum (num_of (firstRow bcp))] args in
  let args := push_when (truthy_str (inputFile bcp))
                [TStr "-i"; TStr (JSON_stringify (str_of (inputFile bcp)))] args in
  let args := push_when (readOnly bcp) [TStr "-K"; TStr "ReadOnly"] args in
  let args := push_when (keepNulls bcp) [TStr "-k"] args in
  let args := push_when (truthy_num (lastRow bcp))
                [TStr "-L"; TNum (num_of (lastRow bcp))] args in
  let args := push_when (truthy_num (maxErrors bcp))
                [TStr "-m"; TNum (num_of (maxErrors bcp))] args in
  let args := push_when (regional bcp) [TStr "-R"] args in
  let args := push_when (truthy_str (rowTerminator bcp) && negb omitFormat)
                (terminator_tokens "-r" (str_of (rowTerminator bcp))) args in
  let args := push_when (truthy_str (server bcp))
                [TStr "-S"; TStr (JSON_stringify (str_of (server bcp)))] args in
  let args := push_when (truthy_str (fieldTerminator bcp) && negb omitFormat)
                (terminator_tokens "-t" (str_of (fieldTerminator bcp))) args in
  let args :=
    if trusted bcp
    then push_when true [TStr "-T"] args
    else
      let args := push_when (truthy_str (user bcp))
                    [TStr "-U"; TStr (JSON_stringify (str_of (user bcp)))] args in
      let args := push_when (truthy_str (password bcp))
                    [TStr "-P"; TStr (JSON_stringify (str_of (password bcp)))] args in
      args in
  let hints := getHints bcp in
  let args := push_when (negb (Nat.eqb (length hints) 0))
                [TStr "-h"; TStr (JSON_stringify (join "," hints))] args in
  args.

(** [common.join(' ')] *)
Definition join_args (args : list Token) : string :=
  join " " (map token_string args).

(** ** getQualifiedTable *)

Definition getQualifiedTable (bcp : Bcp) (table : string) : string :=
  let arg := "[" +:+ table +:+ "]" in
  let arg := if negb (String.eqb (schema bcp) "")
             then "[" +:+ schema bcp +:+ "]." +:+ arg else arg in
  let arg := if truthy_str (database bcp)
             then "[" +:+ str_of (database bcp) +:+ "]." +:+ arg else arg in
  let arg := if quotedIdentifiers bcp then JSON_stringify arg else arg in
  arg.

(** ** mergeOptions *)

(** [overrides] is [None] when the caller passed nothing (or [null]).  Only the
    keys of [defaults] are visited by the [for .. in] loop. *)
Definition mergeOptions (defaults : JSObject) (overrides : option JSObject)
  : JSObject :=
  match overrides with
  | None => defaults
  | Some ov =>
      map_imap (fun i v => Some (match ov !! i with
                                 | Some v' => v'
                                 | None => v
                                 end)) defaults
  end.

(** ** The host: built-ins of the JavaScript runtime the code calls *)

Class Host := {
  number : Type;                               (* values of [Number(s)] *)
  date : Type;                                 (* values of [new Date(s)] *)
  Number_of_string : string -> number;
  Date_of_string : string -> date;
  Path_join : string -> string -> string;
  Path_resolve : string -> string -> string;
  Path_dirname : string -> string
}.

(** ** Format descriptors (the FormatFile collaborator's objects) *)

Record Field := {
  name : string;
  type : string;
  terminator : string;
  inImport : bool
}.

Record FormatFile := {
  filename : string;
  encoding : string;
  fields : list Field
}.

(** ** Bcp.typesMap *)

Inductive Cons := Boolean | Number | Date.

Definition typesMap_entries : list (string * Cons) :=
  [ ("SQLBIT", Boolean);
    ("SQLTINYINT", Number);
    ("SQLSMALLINT", Number);
    ("SQLINT", Number);
    ("SQLBIGINT", Number);
    ("SQLFLT4", Number);
    ("SQLFLT8", Number);
    ("SQLDATETIME", Date);
    ("SQLDATETIM4", Date);
    ("SQLDATETIM8", Date) ].

Definition typesMap : gmap string Cons := list_to_map typesMap_entries.

(** ** String.prototype.indexOf and substring *)

(** [data.indexOf(t, i)]: the position is clamped to the length of [data];
    [None] stands for [-1]. *)
Definition indexOf (data t : string) (i : nat) : option nat :=
  String.index (Nat.min i (String.length data)) t data.

(** [data.substring(a, b)]: both ends are clamped and swapped when [a > b]. *)
Definition js_substring (data : string) (a b : nat) : string :=
  let a := Nat.min a (String.length data) in
  let b := Nat.min b (String.length data) in
  String.substring (Nat.min a b) (Nat.max a b - Nat.min a b) data.

Definition NUL : string := String "000"%char "".

Section Reader.
Context {host : Host}.

(** Decoded values of a row. *)
Inductive Value :=
| VNull
| VString (s : string)
| VNumber (n : number)
| VBoolean (b : bool)
| VDate (d : date).

(** ** fieldDeserialize *)
Definition fieldDeserialize (value : string) (field : Field) : Value :=
  let cons := typesMap !! type field in
  if String.eqb value "" then VNull
  else if String.eqb value NUL then VString ""
  else match cons with
       | Some Date => VDate (Date_of_string value)
       | Some Number => VNumber (Number_of_string value)
       | Some Boolean => VBoolean (String.eqb value "1")
       | None => VString value
       end.

(** ** The scan loop of Bcp.readExport *)

(** The inner [for] loop over the fields: [None] is [break data_loop],
    otherwise the filled object and the offset after the last terminator. *)
Fixpoint read_row (data : string) (fs : list Field) (i : nat)
         (o : gmap string Value) : option (gmap string Value * nat) :=
  match fs with
  | [] => Some (o, i)
  | f :: rest =>
      let t := terminator f in
      match indexOf data t i with
      | None => None
      | Some dex =>
          read_row data rest (dex + String.length t)
                   (<[name f := fieldDeserialize (js_substring data i dex) f]> o)
      end
  end.

(** The outer [while] loop; one unit of fuel per iteration, [None] when the
    fuel runs out before the loop exits. *)
Fixpoint data_loop (fuel : nat) (data : string) (fs : list Field) (i : nat)
         (rows : list (gmap string Value)) : option (list (gmap string Value)) :=
  match fuel with
  | 0 => None
  | S fuel' =>
      if Nat.ltb i (String.length data) then
        match read_row data fs i ∅ with
        | None => Some rows
        | Some (o, i') => data_loop fuel' data fs i' (rows ++ [o])
        end
      else Some rows
  end.

(** The rows computed from the file content once it has been read. *)
Definition readExport_rows (fuel : nat) (data : string) (format : FormatFile)
  : option (list (gmap string Value)) :=
  data_loop fuel data (fields format) 0 [].
End Reader.

(** ** The pattern [/(\d+) rows copied\./] *)

Definition is_digit (c : ascii) : bool :=
  let n := nat_of_ascii c in Nat.leb 48 n && Nat.leb n 57.

(** The longest run of digits at the head of [s], and what follows it. *)
Fixpoint span_digits (s : string) : string * string :=
  match s with
  | String c s' =>
      if is_digit c
      then let (ds, rest) := span_digits s' in (String c ds, rest)
      else ("", s)
  | EmptyString => ("", "")
  end.

Fixpoint all_digits (s : string) : bool :=
  match s with
  | EmptyString => true
  | String c s' => is_digit c && all_digits s'
  end.

(** [pattern.exec(stdout)]: the first capture group of the leftmost match. *)
Fixpoint rows_copied_exec (stdout : string) : option string :=
  match stdout with
  | EmptyString => None
  | String c s' =>
      let (ds, rest) := span_digits stdout in
      if negb (String.eqb ds "") && String.prefix " rows copied." rest
      then Some ds
      else rows_copied_exec s'
  end.

(** [Number(s)] on a string of decimal digits. *)
Definition Number_of_digits (s : string) : Z :=
  fold_left (fun acc c => (10 * acc + Z.of_nat (nat_of_ascii c - 48))%Z)
            (list_ascii_of_string s) 0%Z.

(** ** String.prototype.toLowerCase on code units below 256 *)

Definition lower_char (c : ascii) : ascii :=
  let n := nat_of_ascii c in
  if (Nat.leb 65 n && Nat.leb n 90)
     || (Nat.leb 192 n && Nat.leb n 222 && negb (Nat.eqb n 215))
  then ascii_of_nat (n + 32)
  else c.

Fixpoint toLowerCase (s : string) : string :=
  match s with
  | EmptyString => ""
  | String c s' => String (lower_char c) (toLowerCase s')
  end.

(** [arr.indexOf(x)] on an array of strings. *)
Fixpoint array_indexOf (arr : list string) (x : string) : option nat :=
  match arr with
  | [] => None
  | y :: rest =>
      if String.eqb y x then Some 0
      else match array_indexOf rest x with
           | Some n => Some (S n)
           | None => None
           end
  end.

(** ** Effects: the calls that leave the process, and their answers *)

Record JSError := { message : string }.

Inductive Event :=
| Mkdirp (dir : string)
| ChildProcess_exec (cmd : string)
| FormatFile_fromFile (file : string)
| Fs_readFile (file : string) (enc : string)
| Fs_unlink (file : string)
| New_ImportFile (file : string).

(** What the outside answers to each call, given the calls made so far. *)
Record World := {
  now : Z;                                   (* new Date().getTime() *)
  random : Z;                                (* Math.floor(Math.random() * 4000000000) *)
  pid : Z;                                   (* process.pid *)
  cwd : string;                              (* process.cwd() *)
  mkdirp_answer : list Event -> string -> option JSError;
  exec_answer : list Event -> string -> JSError + string;
  fromFile_answer : list Event -> string -> JSError + FormatFile;
  readFile_answer : list Event -> string -> string -> JSError + string;
  unlink_answer : list Event -> string -> option JSError
}.

Inductive Outcome (A : Type) :=
| Ok (a : A)
| Failed (e : JSError)
| Diverged.
Arguments Ok {A} a.
Arguments Failed {A} e.
Arguments Diverged {A}.

(** A step: from the calls made so far to an outcome and the calls made. *)
Definition M (A : Type) : Type := list Event -> Outcome A * list Event.

Definition ret {A} (a : A) : M A := fun tr => (Ok a, tr).

Definition fail {A} (e : JSError) : M A := fun tr => (Failed e, tr).

(** Athena.waterfall: the next step runs only when the previous one called
    back without an error. *)
Definition bind {A B} (m : M A) (k : A -> M B) : M B :=
  fun tr =>
    match m tr with
    | (Ok a, tr') => k a tr'
    | (Failed e, tr') => (Failed e, tr')
    | (Diverged, tr') => (Diverged, tr')
    end.

Notation "x <- m ;; k" := (bind m (fun x => k))
  (at level 100, m at next level, right associativity).
Notation "m ;;; k" := (bind m (fun _ => k))
  (at level 100, right associativity).

(** Athena.parallel and Athena.map: every task is started, in order; the
    whole fails when one of them fails (the first failure is reported). *)
Fixpoint parallel (tasks : list (M unit)) : M unit :=
  match tasks with
  | [] => ret tt
  | t :: rest =>
      fun tr =>
        match t tr with
        | (Ok _, tr') => parallel rest tr'
        | (Failed e, tr') =>
            match parallel rest tr' with
            | (Diverged, tr'') => (Diverged, tr'')
            | (_, tr'') => (Failed e, tr'')
            end
        | (Diverged, tr') => (Diverged, tr')
        end
  end.

(** The import-file handle (the ImportFile collaborator's object), kept as
    the arguments of its constructor. *)
Record ImportFile := {
  imp_bcp : Bcp;
  imp_format : FormatFile;
  imp_table : string;
  imp_filename : string;
  imp_encoding : string
}.

(** <<details>> of bulkExport. *)
Record Details := {
  d_formatFile : string;
  d_exportFile : string;
  rowCount : Z;
  stdout : option string
}.

Section Orchestrator.
Context {host : Host}.
Variable w : World.

Definition of_answer {A} (ev : Event) (ans : list Event -> JSError + A) : M A :=
  fun tr =>
    match ans tr with
    | inl e => (Failed e, tr ++ [ev])
    | inr a => (Ok a, tr ++ [ev])
    end.

Definition of_status (ev : Event) (ans : list Event -> option JSError) : M unit :=
  fun tr =>
    match ans tr with
    | Some e => (Failed e, tr ++ [ev])
    | None => (Ok tt, tr ++ [ev])
    end.

Definition mkdirp (d : string) : M unit :=
  of_status (Mkdirp d) (fun tr => mkdirp_answer w tr d).

Definition child_exec (cmd : string) : M string :=
  of_answer (ChildProcess_exec cmd) (fun tr => exec_answer w tr cmd).

Definition fromFile (file : string) : M FormatFile :=
  of_answer (FormatFile_fromFile file) (fun tr => fromFile_answer w tr file).

Definition readFile (file enc : string) : M string :=
  of_answer (Fs_readFile file enc) (fun tr => readFile_answer w tr file enc).

Definition unlink (file : string) : M unit :=
  of_status (Fs_unlink file) (fun tr => unlink_answer w tr file).

(** ** tempFile *)
Definition tempFile (bcp : Bcp) : string :=
  let base := pretty (now w) +:+ "_" +:+ pretty (random w) +:+ "_" +:+ pretty (pid w) in
  Path_join (tmp bcp) base.

(** ** ensureDirectories *)
Definition ensureDirectories (files : list string) : M unit :=
  let dirs :=
    fold_left (fun dirs f =>
                 let d := Path_dirname (Path_resolve (cwd w) f) in
                 match array_indexOf dirs d with
                 | None => dirs ++ [d]
                 | Some _ => dirs
                 end) files [] in
  parallel (map mkdirp dirs).

(** ** formatGenerate *)
Definition format_cmd (bcp : Bcp) (table file : string) (args : list Token) : string :=
  exec bcp +:+ " " +:+ table +:+ " format nul -x -f "
  +:+ JSON_stringify file +:+ " " +:+ join_args args.

Definition formatGenerate (bcp : Bcp) (table file : string) (args : list Token)
  : M FormatFile :=
  let cmd := format_cmd bcp table file args in
  child_exec cmd ;;;
  fromFile file.

(** ** Bcp.readExport *)
Definition readExport (fuel : nat) (file : string) (format : FormatFile)
  : M (list (gmap string Value)) :=
  data <- readFile file (encoding format) ;;
  match readExport_rows fuel data format with
  | Some rows => ret rows
  | None => fun tr => (Diverged, tr)
  end.

(** ** Bcp.prototype.bulkExport *)

Definition bulkExport_defaults : JSObject :=
  <["read" := JBool true]> (<["keepFiles" := JBool false]> ∅).

(** The options object after merging and the [read] adjustment. *)
Definition bulkExport_options (overrides : option JSObject) : JSObject :=
  let options := mergeOptions bulkExport_defaults overrides in
  if negb (truthy (prop options "read"))
  then <["keepFiles" := JBool true]> options
  else options.

(** [options.formatFile || base + '_format.xml'], used as a path. *)
Definition bulkExport_formatFile (bcp : Bcp) (options : JSObject) : string :=
  js_String (js_or (prop options "formatFile") (JStr (tempFile bcp +:+ "_format.xml"))).

(** [options.exportFile || base + '_export.dat'], used as a path. *)
Definition bulkExport_exportFile (bcp : Bcp) (options : JSObject) : string :=
  js_String (js_or (prop options "exportFile") (JStr (tempFile bcp +:+ "_export.dat"))).

(** The step that receives [stdout], first half: record it and parse the
    row count. *)
Definition parse_rowCount (details : Details) (out : string) : Details :=
  let details := {| d_formatFile := d_formatFile details;
                    d_exportFile := d_exportFile details;
                    rowCount := rowCount details;
                    stdout := Some out |} in
  match rows_copied_exec out with
  | Some digits => {| d_formatFile := d_formatFile details;
                      d_exportFile := d_exportFile details;
                      rowCount := Number_of_digits digits;
                      stdout := stdout details |}
  | None => details
  end.

(** Second half: read the export file back, or pass [null] on. *)
Definition read_results (fuel : nat) (options : JSObject) (exportFile : string)
           (format : FormatFile) : M (option (list (gmap string Value))) :=
  if truthy (prop options "read")
  then rows <- readExport fuel exportFile format ;; ret (Some rows)
  else ret None.

(** The command line of the export step. *)
Definition export_cmd (bcp : Bcp) (table exportFile : string) (common : list Token)
  : string :=
  exec bcp +:+ " " +:+ table +:+ " out "
  +:+ JSON_stringify exportFile +:+ " " +:+ join_args common.

(** The last step: keep the files, or unlink both. *)
Definition cleanup (options : JSObject) (formatFile exportFile : string) : M unit :=
  if truthy (prop options "keepFiles")
  then ret tt
  else parallel [unlink formatFile; unlink exportFile].

Definition bulkExport (fuel : nat) (bcp : Bcp) (table : string)
           (overrides : option JSObject)
  : M (option (list (gmap string Value)) * Details) :=
  let options := bulkExport_options overrides in
  let common := getCommonArgs bcp false in
  let table := getQualifiedTable bcp table in
  let formatFile := bulkExport_formatFile bcp options in
  let exportFile := bulkExport_exportFile bcp options in
  let details := {| d_formatFile := formatFile; d_exportFile := exportFile;
                    rowCount := 0; stdout := None |} in
  ensureDirectories [formatFile; exportFile] ;;;
  format <- formatGenerate bcp table formatFile common ;;
  out <- child_exec (export_cmd bcp table exportFile common) ;;
  let details := parse_rowCount details out in
  rows <- read_results fuel options exportFile format ;;
  cleanup options formatFile exportFile ;;;
  ret (rows, details).

(** ** Bcp.prototype.prepareBulkInsert *)

(** The loop over [columns]: [inl c] when column [c] is not found, else the
    fields after renaming and flagging. *)
Fixpoint check_columns (origFieldNames : list string) (columns : list string)
         (fs : list Field) : string + list Field :=
  match columns with
  | [] => inr fs
  | c :: rest =>
      match array_indexOf origFieldNames (toLowerCase c) with
      | None => inl c
      | Some dex =>
          check_columns origFieldNames rest
            (alter (fun f => {| name := c; type := type f;
                                terminator := terminator f; inImport := true |})
                   dex fs)
      end
  end.

(** Here the two paths are keys of the defaults, so the caller can set them. *)
Definition prepare_defaults (bcp : Bcp) : JSObject :=
  <["formatFile" := JStr (tempFile bcp +:+ "_format.xml")]>
    (<["importFile" := JStr (tempFile bcp +:+ "_import.dat")]> ∅).

Definition prepareBulkInsert (bcp : Bcp) (table : string) (columns : list string)
           (overrides : option JSObject) : M ImportFile :=
  let options := mergeOptions (prepare_defaults bcp) overrides in
  let common := getCommonArgs bcp false in
  let fullTable := getQualifiedTable bcp table in
  let formatFile := js_String (prop options "formatFile") in
  let importFile := js_String (prop options "importFile") in
  ensureDirectories [formatFile; importFile] ;;;
  format <- formatGenerate bcp fullTable formatFile common ;;
  let origFieldNames := map (fun f => toLowerCase (name f)) (fields format) in
  match check_columns origFieldNames columns (fields format) with
  | inl c => fail {| message := fullTable +:+ " does not contain column " +:+ c |}
  | inr fs =>
      let format := {| filename := filename format; encoding := encoding format;
                       fields := fs |} in
      fun tr =>
        (Ok {| imp_bcp := bcp; imp_format := format; imp_table := table;
               imp_filename := importFile;
               imp_encoding := if unicode bcp then "ucs2" else "ascii" |},
         tr ++ [New_ImportFile importFile])
  end.
End Orchestrator.

(** ** Bcp.prototype.bulkInsert *)

Section Insert.
Variable w : World.

Definition bulkInsert_defaults : JSObject := <["keepFiles" := JBool false]> ∅.

(** The command line of the import step. *)
Definition insert_cmd (bcp : Bcp) (table importFilename : string) (format : FormatFile)
           (common : list Token) : string :=
  exec bcp +:+ " " +:+ table +:+ " in " +:+ JSON_stringify importFilename
  +:+ " -f " +:+ JSON_stringify (filename format) +:+ " " +:+ join_args common.

Definition bulkInsert (bcp : Bcp) (importFilename : string) (format : FormatFile)
           (table : string) (overrides : option JSObject) : M unit :=
  let options := mergeOptions bulkInsert_defaults overrides in
  let common := getCommonArgs bcp true in
  let table := getQualifiedTable bcp table in
  child_exec w (insert_cmd bcp table importFilename format common) ;;;
  if truthy (prop options "keepFiles")
  then ret tt
  else parallel [unlink w (filename format); unlink w importFilename].
End Insert.

(** ** The constructor [Bcp(options)]

    The options object, with each member at the type its documentation
    gives; [None] is a member the caller left out. *)
Record BcpOptions := {
  o_exec : option string;
  o_timeout : option Z;
  o_killSignal : option string;
  o_tmp : option string;
  o_database : option string;
  o_schema : option string;
  o_packetSize : option Z;
  o_batchSize : option Z;
  o_unicode : option bool;
  o_codePage : option string;
  o_errorFile : option string;
  o_useIdentity : option bool;
  o_firstRow : option Z;
  o_order : option string;
  o_rowsPerBatch : option Z;
  o_kbPerBatch : option Z;
  o_tabLock : option bool;
  o_checkConstraints : option bool;
  o_fireTriggers : option bool;
  o_inputFile : option string;
  o_keepNulls : option bool;
  o_readOnly : option bool;
  o_lastRow : option Z;
  o_maxErrors : option Z;
  o_password : option string;
  o_quotedIdentifiers : option bool;
  o_rowTerminator : option string;
  o_regional : option bool;
  o_server : option string;
  o_fieldTerminator : option string;
  o_trusted : option bool;
  o_user : option string
}.

(** [opt || dflt] on a string member. *)
Definition str_or (o : option string) (dflt : string) : string :=
  if truthy_str o then str_of o else dflt.

(** [!!opt] on a boolean member. *)
Definition bool_of (o : option bool) : bool := default false o.

(** [TMP] is the module constant [Path.join(HOME, '.bcp')]. *)
Definition Bcp_new (TMP : string) (options : BcpOptions) : Bcp :=
  {| exec := str_or (o_exec options) "bcp";
     timeout := if truthy_num (o_timeout options) then num_of (o_timeout options) else 0%Z;
     killSignal := str_or (o_killSignal options) "SIGTERM";
     tmp := str_or (o_tmp options) TMP;
     database := o_database options;
     schema := str_or (o_schema options) "dbo";
     packetSize := o_packetSize options;
     batchSize := o_batchSize options;
     unicode := match o_unicode options with Some b => b | None => true end;
     codePage := if truthy_str (o_codePage options) then o_codePage options else None;
     errorFile := o_errorFile options;
     useIdentity := bool_of (o_useIdentity options);
     firstRow := o_firstRow options;
     order := o_order options;
     rowsPerBatch := o_rowsPerBatch options;
     kbPerBatch := o_kbPerBatch options;
     tabLock := bool_of (o_tabLock options);
     checkConstraints := bool_of (o_checkConstraints options);
     fireTriggers := bool_of (o_fireTriggers options);
     inputFile := o_inputFile options;
     keepNulls := bool_of (o_keepNulls options);
     readOnly := bool_of (o_readOnly options);
     lastRow := o_lastRow options;
     maxErrors := o_maxErrors options;
     password := o_password options;
     quotedIdentifiers := bool_of (o_quotedIdentifiers options);
     rowTerminator := o_rowTerminator options;
     regional := bool_of (o_regional options);
     server := o_server options;
     fieldTerminator := o_fieldTerminator options;
     trusted := bool_of (o_trusted options);
     user := o_user options |}.

(** Options for the examples: everything left out but the members given. *)
Definition example_options (sch db : option string) (bs rpb : option Z)
           (uni : option bool) (cp : option string) : BcpOptions :=
  {| o_exec := None; o_timeout := None; o_killSignal := None; o_tmp := None;
     o_database := db; o_schema := sch; o_packetSize := None; o_batchSize := bs;
     o_unicode := uni; o_codePage := cp; o_errorFile := None; o_useIdentity := None;
     o_firstRow := None; o_order := None; o_rowsPerBatch := rpb; o_kbPerBatch := None;
     o_tabLock := None; o_checkConstraints := None; o_fireTriggers := None;
     o_inputFile := None; o_keepNulls := None; o_readOnly := None; o_lastRow := None;
     o_maxErrors := None; o_password := None; o_quotedIdentifiers := None;
     o_rowTerminator := None; o_regional := None; o_server := None;
     o_fieldTerminator := None; o_trusted := None; o_user := None |}.

(** A world in which the call made after [n] earlier calls fails with
    [oops], and every other call succeeds as in [example_world]. *)
Definition oops : JSError := {| message := "oops" |}.

Definition failing_world (n : nat) (out data : string) (fmt : FormatFile) : World :=
  {| now := 1700000000000; random := 42; pid := 4242; cwd := "/work";
     mkdirp_answer := fun tr _ => if Nat.eqb (length tr) n then Some oops else None;
     exec_answer := fun tr _ => if Nat.eqb (length tr) n then inl oops else inr out;
     fromFile_answer := fun tr _ => if Nat.eqb (length tr) n then inl oops else inr fmt;
     readFile_answer := fun tr _ _ => if Nat.eqb (length tr) n then inl oops else inr data;
     unlink_answer := fun tr _ => if Nat.eqb (length tr) n then Some oops else None |}.

(** ** Predicates on strings used in the statements *)


(** The lower-cased name of a field, as the column check compares it. *)
Definition lcname (f : Field) : string := toLowerCase (name f).

(** What the column check writes into a matched field. *)
Definition mark_column (c : string) (f : Field) : Field :=
  {| name := c; type := type f; terminator := terminator f; inImport := true |}.


(** ** Reading traces *)

(** Every call a step makes satisfies [P]. *)
Definition emits {A} (P : Event -> Prop) (m : M A) : Prop :=
  forall tr o tr', m tr = (o, tr') -> exists evs, tr' = tr ++ evs /\ Forall P evs.

Definition not_unlink (e : Event) : Prop := forall f, e <> Fs_unlink f.

Definition is_mkdirp (e : Event) : Prop := exists d, e = Mkdirp d.

Definition not_readFile (e : Event) : Prop := forall f enc, e <> Fs_readFile f enc.

(** ** Well-terminated buffers

    The shape of a buffer the reader is meant for: rows written one after
    the other, each value followed by the terminator of its field. *)

(** [t] is first met in [v] followed by [t] right after [v]. *)
Definition first_at (v t : string) : Prop :=
  String.index 0 t (v +:+ t) = Some (String.length v).

(** The values of one row, each with its terminator; fewer values than
    fields give the beginning of a row. *)
Fixpoint encode_row (fs : list Field) (vs : list string) : string :=
  match fs, vs with
  | f :: fs', v :: vs' => v +:+ terminator f +:+ encode_row fs' vs'
  | _, _ => ""
  end.

Fixpoint encode_rows (fs : list Field) (rows : list (list string)) : string :=
  match rows with
  | [] => ""
  | vs :: rest => encode_row fs vs +:+ encode_rows fs rest
  end.

Definition well_terminated (fs : list Field) (vs : list string) : Prop :=
  Forall2 (fun f v => first_at v (terminator f)) fs vs.

Section Decode.
Context {host : Host}.

(** The object the reader builds from the values of a complete row. *)
Fixpoint decode_row (fs : list Field) (vs : list string)
         (o : gmap string Value) : gmap string Value :=
  match fs, vs with
  | f :: fs', v :: vs' =>
      decode_row fs' vs' (<[name f := fieldDeserialize v f]> o)
  | _, _ => o
  end.
End Decode.

(** ** Concrete inputs used by the examples *)

(** The configuration the constructor builds from [{}], with the members
    the examples vary left as arguments. *)
Definition example_bcp (rt ft u p ord : option string) (rpb : option Z)
           (tr tl : bool) : Bcp :=
  {| exec := "bcp"; timeout := 0; killSignal := "SIGTERM"; tmp := "/home/u/.bcp";
     database := None; schema := "dbo"; packetSize := None; batchSize := None;
     unicode := true; codePage := None; errorFile := None; useIdentity := false;
     firstRow := None; order := ord; rowsPerBatch := rpb; kbPerBatch := None;
     tabLock := tl; checkConstraints := false; fireTriggers := false;
     inputFile := None; keepNulls := false; readOnly := false; lastRow := None;
     maxErrors := None; password := p; quotedIdentifiers := false;
     rowTerminator := rt; regional := false; server := None;
     fieldTerminator := ft; trusted := tr; user := u |}.

(** A host for the examples: [Number] on strings of decimal digits, dates
    kept as their source text, and paths handled as on a POSIX system for
    absolute paths without [.] and [..] segments. *)
Fixpoint example_dirname_aux (s : string) : option string :=
  match s with
  | EmptyString => None
  | String c s' =>
      match example_dirname_aux s' with
      | Some d => Some (String c d)
      | None => if Ascii.eqb c "/" then Some "" else None
      end
  end.

Definition example_host : Host :=
  {| number := Z;
     date := string;
     Number_of_string := Number_of_digits;
     Date_of_string := fun s => s;
     Path_join := fun a b => a +:+ "/" +:+ b;
     Path_resolve := fun _ f => f;
     Path_dirname := fun s => default "." (example_dirname_aux s) |}.

Definition TAB : string := String "009"%char "".
Definition LF : string := String "010"%char "".

Definition example_fields : list Field :=
  [ {| name := "f0"; type := "SQLINT"; terminator := TAB; inImport := false |};
    {| name := "f1"; type := "SQLBIT"; terminator := LF; inImport := false |} ].

Definition example_format : FormatFile :=
  {| filename := "/home/u/.bcp/fmt.xml"; encoding := "ucs2"; fields := example_fields |}.

(** A world in which every call succeeds: the tool prints [out], the
    descriptor read back is [fmt] and the export file holds [data]. *)
Definition example_world (out data : string) (fmt : FormatFile) : World :=
  {| now := 1700000000000; random := 42; pid := 4242; cwd := "/work";
     mkdirp_answer := fun _ _ => None;
     exec_answer := fun _ _ => inr out;
     fromFile_answer := fun _ _ => inr fmt;
     readFile_answer := fun _ _ _ => inr data;
     unlink_answer := fun _ _ => None |}.

Definition example_trusted_bcp : Bcp :=
  example_bcp None None None None None None true false.

(** * Properties of the argument builder *)

Lemma push_when_app {A} (c : bool) (toks args : list A) :
  push_when c toks args = args ++ (if c then toks else []).
Proof. destruct c; simpl; [reflexivity | now rewrite app_nil_r]. Qed.

Lemma Forall_push_when {A} (P : A -> Prop) c toks args :
  Forall P args -> (c = true -> Forall P toks) -> Forall P (push_when c toks args).
Proof.
  intros Ha Ht. destruct c; simpl; [|exact Ha].
  apply Forall_app; split; [exact Ha | now apply Ht].
Qed.

(** Tokens the builder can push: a fixed flag, a number, a quoted string, or
    a terminator flag glued to its value. *)
Inductive pushed : Token -> Prop :=
| pushed_flag s :
    In s ["-a"; "-b"; "-w"; "-c"; "-C"; "-e"; "-E"; "-F"; "-i"; "-K"; "ReadOnly";
          "-k"; "-L"; "-m"; "-R"; "-r"; "-S"; "-t"] -> pushed (TStr s)
| pushed_num n : pushed (TNum n)
| pushed_quoted s : pushed (TStr (JSON_stringify s))
| pushed_glued_r s : pushed (TStr ("-r" +:+ s))
| pushed_glued_t s : pushed (TStr ("-t" +:+ s)).

Lemma pushed_terminator_r s : Forall pushed (terminator_tokens "-r" s).
Proof.
  unfold terminator_tokens. destruct (starts_with_dash_or_slash s).
  - apply List.Forall_cons; [apply pushed_glued_r | apply List.Forall_nil].
  - apply List.Forall_cons; [apply pushed_flag; simpl; tauto|].
    apply List.Forall_cons; [apply pushed_quoted | apply List.Forall_nil].
Qed.

Lemma pushed_terminator_t s : Forall pushed (terminator_tokens "-t" s).
Proof.
  unfold terminator_tokens. destruct (starts_with_dash_or_slash s).
  - apply List.Forall_cons; [apply pushed_glued_t | apply List.Forall_nil].
  - apply List.Forall_cons; [apply pushed_flag; simpl; tauto|].
    apply List.Forall_cons; [apply pushed_quoted | apply List.Forall_nil].
Qed.

Ltac pushed_step :=
  apply Forall_push_when;
  [ | intros _;
      first [ apply pushed_terminator_r
            | apply pushed_terminator_t
            | repeat (apply List.Forall_cons;
                      [ first [ apply pushed_num | apply pushed_quoted
                              | apply pushed_flag; simpl; tauto ] | ]);
              apply List.Forall_nil ] ].

Lemma JSON_stringify_head s : exists r, JSON_stringify s = String dquote r.
Proof. unfold JSON_stringify. eauto. Qed.

Lemma pushed_not_flag (f : string) t :
  pushed t -> In f ["-T"; "-U"; "-P"; "-h"] -> t <> TStr f.
Proof.
  intros Hp Hf Heq.
  assert (Hc : f = "-T" \/ f = "-U" \/ f = "-P" \/ f = "-h")
    by (simpl in Hf; intuition congruence).
  destruct Hp as [s Hin | n | s | s | s]; inversion Heq as [Hs]; clear Heq.
  - subst s. simpl in Hin.
    destruct Hc as [-> | [-> | [-> | ->]]];
      repeat (destruct Hin as [Hin | Hin]; [discriminate Hin|]); exact Hin.
  - destruct (JSON_stringify_head s) as [r Hr]. rewrite Hr in Hs.
    destruct Hc as [-> | [-> | [-> | ->]]]; discriminate Hs.
  - destruct Hc as [-> | [-> | [-> | ->]]]; discriminate Hs.
  - destruct Hc as [-> | [-> | [-> | ->]]]; discriminate Hs.
Qed.

Ltac pushed_chain := repeat pushed_step; try apply List.Forall_nil.

(** The array as it stands when the authentication block is reached holds
    only tokens of the kinds listed by [pushed]. *)
Lemma getCommonArgs_shape bcp om :
  exists pre,
    Forall pushed pre /\
    getCommonArgs bcp om =
      (pre ++ (if trusted bcp then [TStr "-T"]
               else (if truthy_str (user bcp)
                     then [TStr "-U"; TStr (JSON_stringify (str_of (user bcp)))]
                     else [])
                    ++ (if truthy_str (password bcp)
                        then [TStr "-P"; TStr (JSON_stringify (str_of (password bcp)))]
                        else [])))
      ++ (if negb (Nat.eqb (length (getHints bcp)) 0)
          then [TStr "-h"; TStr (JSON_stringify (join "," (getHints bcp)))]
          else []).
Proof.
  unfold getCommonArgs; cbv zeta.
  match goal with
  | |- context [push_when (truthy_str (fieldTerminator bcp) && negb om) ?l ?a] =>
      set (X := push_when (truthy_str (fieldTerminator bcp) && negb om) l a)
  end.
  exists X. split.
  - subst X. destruct (unicode bcp); pushed_chain.
  - rewrite push_when_app. f_equal.
    destruct (trusted bcp); rewrite !push_when_app; simpl.
    + reflexivity.
    + now rewrite app_assoc.
Qed.

Lemma not_In_app {A} (x : A) l1 l2 : ~ In x l1 -> ~ In x l2 -> ~ In x (l1 ++ l2).
Proof. intros H1 H2 Hin. apply in_app_or in Hin. tauto. Qed.

Lemma pushed_not_In f pre :
  Forall pushed pre -> In f ["-T"; "-U"; "-P"; "-h"] -> ~ In (TStr f) pre.
Proof.
  intros Hall Hf Hin. rewrite List.Forall_forall in Hall.
  exact (pushed_not_flag f _ (Hall _ Hin) Hf eq_refl).
Qed.

Lemma quoted_not_flag s (f : string) :
  In f ["-T"; "-U"; "-P"; "-h"] -> TStr (JSON_stringify s) <> TStr f.
Proof. intros Hf. apply pushed_not_flag; [apply pushed_quoted | exact Hf]. Qed.

(** C4: with [trusted] set the argument list holds [-T] and neither [-U] nor
    [-P], whatever [user] and [password] are. *)
Theorem getCommonArgs_trusted bcp om :
  trusted bcp = true ->
  In (TStr "-T") (getCommonArgs bcp om)
  /\ ~ In (TStr "-U") (getCommonArgs bcp om)
  /\ ~ In (TStr "-P") (getCommonArgs bcp om).
Proof.
  intros Ht. destruct (getCommonArgs_shape bcp om) as (pre & Hpre & ->).
  rewrite Ht.
  assert (Hh : forall f, In f ["-U"; "-P"] ->
                 ~ In (TStr f)
                   (if negb (Nat.eqb (length (getHints bcp)) 0)
                    then [TStr "-h"; TStr (JSON_stringify (join "," (getHints bcp)))]
                    else [])).
  { intros f Hf. destruct (negb _); simpl; [|tauto].
    intros [H | [H | []]].
    - destruct Hf as [<- | [<- | []]]; discriminate H.
    - revert H. apply quoted_not_flag. simpl in *; tauto. }
  split; [|split].
  - apply in_or_app; left. apply in_or_app; right. simpl; tauto.
  - apply not_In_app; [apply not_In_app|].
    + apply pushed_not_In; [exact Hpre | simpl; tauto].
    + simpl. intros [H | []]. discriminate H.
    + apply Hh; simpl; tauto.
  - apply not_In_app; [apply not_In_app|].
    + apply pushed_not_In; [exact Hpre | simpl; tauto].
    + simpl. intros [H | []]. discriminate H.
    + apply Hh; simpl; tauto.
Qed.

Lemma getCommonArgs_trusted_witness :
  let bcp := example_bcp None None (Some "sa") (Some "secret") None None true false in
  In (TStr "-T") (getCommonArgs bcp false)
  /\ ~ In (TStr "-U") (getCommonArgs bcp false)
  /\ ~ In (TStr "-P") (getCommonArgs bcp false).
Proof. intros bcp. apply (getCommonArgs_trusted bcp false). reflexivity. Defined.

(** The hint array lists the applicable hints in the order of the source. *)
Lemma getHints_order bcp :
  getHints bcp =
    (if truthy_str (order bcp) then ["ORDER(" +:+ str_of (order bcp) +:+ ")"] else [])
    ++ (if truthy_num (rowsPerBatch bcp)
        then ["ROWS_PER_BATCH=" +:+ pretty (num_of (rowsPerBatch bcp))] else [])
    ++ (if truthy_num (kbPerBatch bcp)
        then ["KILOBYTES_PER_BATCH=" +:+ pretty (num_of (kbPerBatch bcp))] else [])
    ++ (if tabLock bcp then ["TABLOCK"] else [])
    ++ (if checkConstraints bcp then ["CHECK_CONSTRAINTS"] else [])
    ++ (if fireTriggers bcp then ["FIRE_TRIGGERS"] else []).
Proof.
  unfold getHints; cbv zeta. rewrite !push_when_app. simpl.
  now rewrite <- !app_assoc.
Qed.

(** C3: the hints come in the fixed order, only the applicable ones; when
    there is one, the list ends with [-h] and one token, the quoted
    comma-joined hints, and [-h] stands nowhere else; when there is none, no
    [-h] is pushed. *)
Theorem getCommonArgs_hints bcp om :
  getHints bcp =
    (if truthy_str (order bcp) then ["ORDER(" +:+ str_of (order bcp) +:+ ")"] else [])
    ++ (if truthy_num (rowsPerBatch bcp)
        then ["ROWS_PER_BATCH=" +:+ pretty (num_of (rowsPerBatch bcp))] else [])
    ++ (if truthy_num (kbPerBatch bcp)
        then ["KILOBYTES_PER_BATCH=" +:+ pretty (num_of (kbPerBatch bcp))] else [])
    ++ (if tabLock bcp then ["TABLOCK"] else [])
    ++ (if checkConstraints bcp then ["CHECK_CONSTRAINTS"] else [])
    ++ (if fireTriggers bcp then ["FIRE_TRIGGERS"] else [])
  /\ (getHints bcp <> [] ->
      exists pre,
        getCommonArgs bcp om =
          pre ++ [TStr "-h"; TStr (JSON_stringify (join "," (getHints bcp)))]
        /\ ~ In (TStr "-h") pre)
  /\ (getHints bcp = [] -> ~ In (TStr "-h") (getCommonArgs bcp om)).
Proof.
  split; [apply getHints_order|].
  destruct (getCommonArgs_shape bcp om) as (pre & Hpre & ->).
  assert (Hauth : ~ In (TStr "-h")
            (pre ++ (if trusted bcp then [TStr "-T"]
                     else (if truthy_str (user bcp)
                           then [TStr "-U"; TStr (JSON_stringify (str_of (user bcp)))]
                           else [])
                          ++ (if truthy_str (password bcp)
                              then [TStr "-P"; TStr (JSON_stringify (str_of (password bcp)))]
                              else [])))).
  { apply not_In_app; [apply pushed_not_In; [exact Hpre | simpl; tauto]|].
    destruct (trusted bcp).
    - simpl. intros [H | []]. discriminate H.
    - apply not_In_app.
      + destruct (truthy_str (user bcp)); simpl; [|tauto].
        intros [H | [H | []]]; [discriminate H|].
        revert H. apply quoted_not_flag. simpl; tauto.
      + destruct (truthy_str (password bcp)); simpl; [|tauto].
        intros [H | [H | []]]; [discriminate H|].
        revert H. apply quoted_not_flag. simpl; tauto. }
  split.
  - intros Hne. destruct (getHints bcp) as [|h hs] eqn:Hh; [congruence|].
    simpl negb. cbv iota. eexists. split; [reflexivity | exact Hauth].
  - intros ->. simpl. rewrite app_nil_r. exact Hauth.
Qed.

Lemma getCommonArgs_hints_witness :
  let bcp := example_bcp None None None None (Some "id ASC") (Some 500%Z) true true in
  getHints bcp = ["ORDER(id ASC)"; "ROWS_PER_BATCH=500"; "TABLOCK"]
  /\ getCommonArgs bcp true =
       [TStr "-T"; TStr "-h";
        TStr (JSON_stringify "ORDER(id ASC),ROWS_PER_BATCH=500,TABLOCK")]
  /\ ~ In (TStr "-h") (getCommonArgs (example_bcp None None None None None None true false) true).
Proof.
  intros bcp.
  split; [vm_compute; reflexivity|]. split; [vm_compute; reflexivity|].
  apply (getCommonArgs_hints
           (example_bcp None None None None None None true false) true).
  vm_compute; reflexivity.
Defined.

(** Two tokens in a row. *)
Lemma consecutive_push_when (x y : Token) c toks args :
  (exists pre post, args = pre ++ x :: y :: post) ->
  exists pre post, push_when c toks args = pre ++ x :: y :: post.
Proof.
  intros (pre & post & ->). rewrite push_when_app.
  exists pre, (post ++ (if c then toks else [])).
  now rewrite <- app_assoc.
Qed.

Lemma consecutive_here (x y : Token) args :
  exists pre post, push_when true [x; y] args = pre ++ x :: y :: post.
Proof. exists args, []. reflexivity. Qed.

Lemma In_push_when {A} (x : A) c toks args :
  In x args -> In x (push_when c toks args).
Proof. intros H. rewrite push_when_app. apply in_or_app. now left. Qed.

Lemma In_push_here {A} (x : A) args : In x (push_when true [x] args).
Proof. simpl. apply in_or_app. right. simpl. now left. Qed.

Lemma truthy_str_Some v : v <> "" -> truthy_str (Some v) = true.
Proof.
  intros Hv. simpl. destruct (String.eqb_spec v ""); [contradiction | reflexivity].
Qed.

Ltac find_pair := repeat first [apply consecutive_here | apply consecutive_push_when].
Ltac find_token := repeat first [apply In_push_here | apply In_push_when].

(** No token is a terminator flag, glued or not. *)
Definition no_terminator_flag (t : Token) : Prop :=
  forall s, t <> TStr ("-r" +:+ s) /\ t <> TStr ("-t" +:+ s).

Lemma quoted_no_terminator_flag s : no_terminator_flag (TStr (JSON_stringify s)).
Proof. intros r. unfold JSON_stringify. split; discriminate. Qed.

Ltac no_flag_step :=
  apply Forall_push_when;
  [ | let Hc := fresh in
      intros Hc;
      first [ discriminate Hc
            | repeat (apply List.Forall_cons;
                      [ first [ apply quoted_no_terminator_flag
                              | intros ?; split; discriminate ] | ]);
              apply List.Forall_nil ] ].

Lemma getCommonArgs_omitFormat bcp :
  Forall no_terminator_flag (getCommonArgs bcp true).
Proof.
  unfold getCommonArgs; cbv zeta. simpl negb. rewrite !andb_false_r.
  destruct (unicode bcp), (trusted bcp); repeat no_flag_step; apply List.Forall_nil.
Qed.

(** C2 (amended): when the arguments are built for format generation or for
    an export ([omitFormat] false), a terminator that starts with [-] or [/]
    is glued to its flag in one token; any other non-empty terminator is
    pushed as the flag followed by the terminator as a JSON string.  When
    [omitFormat] is set no terminator token is pushed. *)
Theorem getCommonArgs_terminators bcp :
  (forall v, rowTerminator bcp = Some v -> v <> "" ->
     if starts_with_dash_or_slash v
     then In (TStr ("-r" +:+ v)) (getCommonArgs bcp false)
     else exists pre post,
            getCommonArgs bcp false = pre ++ TStr "-r" :: TStr (JSON_stringify v) :: post)
  /\ (forall v, fieldTerminator bcp = Some v -> v <> "" ->
     if starts_with_dash_or_slash v
     then In (TStr ("-t" +:+ v)) (getCommonArgs bcp false)
     else exists pre post,
            getCommonArgs bcp false = pre ++ TStr "-t" :: TStr (JSON_stringify v) :: post)
  /\ (forall s, ~ In (TStr ("-r" +:+ s)) (getCommonArgs bcp true)
                /\ ~ In (TStr ("-t" +:+ s)) (getCommonArgs bcp true)).
Proof.
  split; [|split].
  - intros v Hv Hne. unfold getCommonArgs; cbv zeta.
    rewrite Hv, (truthy_str_Some v Hne). simpl negb. simpl andb. simpl str_of.
    unfold terminator_tokens.
    destruct (starts_with_dash_or_slash v); destruct (trusted bcp); cbv iota.
    + find_token.
    + find_token.
    + find_pair.
    + find_pair.
  - intros v Hv Hne. unfold getCommonArgs; cbv zeta.
    rewrite Hv, (truthy_str_Some v Hne). simpl negb. rewrite andb_true_r.
    simpl andb. simpl str_of.
    unfold terminator_tokens.
    destruct (starts_with_dash_or_slash v); destruct (trusted bcp); cbv iota.
    + find_token.
    + find_token.
    + find_pair.
    + find_pair.
  - intros s. pose proof (getCommonArgs_omitFormat bcp) as Hall.
    rewrite List.Forall_forall in Hall.
    split; intros Hin; apply Hall in Hin; destruct (Hin s) as [H1 H2]; congruence.
Qed.

Lemma getCommonArgs_terminators_witness :
  In (TStr "-r-x")
     (getCommonArgs (example_bcp (Some "-x") (Some "|") None None None None false false) false)
  /\ exists pre post,
       getCommonArgs (example_bcp (Some "-x") (Some "|") None None None None false false) false
       = pre ++ TStr "-t" :: TStr (JSON_stringify "|") :: post.
Proof.
  pose proof (getCommonArgs_terminators
                (example_bcp (Some "-x") (Some "|") None None None None false false))
    as (Hr & Ht & _).
  split.
  - apply (Hr "-x"); [reflexivity | discriminate].
  - apply (Ht "|"); [reflexivity | discriminate].
Defined.

(** C2 as stated fails: built with [omitFormat] set (as bulkInsert does),
    a row terminator starting with [-] leaves no glued token, and a field
    terminator leaves no [-t] token at all. *)
Lemma getCommonArgs_terminators_omitted :
  let bcp := example_bcp (Some "-x") (Some "|") None None None None false false in
  getCommonArgs bcp true = []
  /\ ~ In (TStr "-r-x") (getCommonArgs bcp true)
  /\ ~ In (TStr "-t") (getCommonArgs bcp true).
Proof.
  intros bcp. split; [vm_compute; reflexivity|].
  split; vm_compute; tauto.
Qed.

(** * Properties of the field codec *)

Lemma typesMap_other ty :
  ~ In ty (map fst typesMap_entries) -> typesMap !! ty = None.
Proof.
  intros Hnot. unfold typesMap. apply not_elem_of_list_to_map_1.
  intros Hin. apply Hnot. now apply list_elem_of_In.
Qed.

Section Codec.
Context {host : Host}.

Lemma fieldDeserialize_typed value field :
  value <> "" -> value <> NUL ->
  fieldDeserialize value field =
    match typesMap !! type field with
    | Some Date => VDate (Date_of_string value)
    | Some Number => VNumber (Number_of_string value)
    | Some Boolean => VBoolean (String.eqb value "1")
    | None => VString value
    end.
Proof.
  intros H1 H2. unfold fieldDeserialize.
  destruct (String.eqb_spec value ""); [contradiction|].
  destruct (String.eqb_spec value NUL); [contradiction|].
  reflexivity.
Qed.

(** C6: the codec's cases.  The two sentinels come first; any other string
    is coerced by the constructor the type tag maps to. *)
Theorem fieldDeserialize_cases (value : string) (field : Field) :
  (value = "" -> fieldDeserialize value field = VNull)
  /\ (value = NUL -> fieldDeserialize value field = VString "")
  /\ (value <> "" -> value <> NUL ->
      (In (type field) ["SQLDATETIME"; "SQLDATETIM4"; "SQLDATETIM8"] ->
         fieldDeserialize value field = VDate (Date_of_string value))
      /\ (In (type field) ["SQLTINYINT"; "SQLSMALLINT"; "SQLINT"; "SQLBIGINT";
                           "SQLFLT4"; "SQLFLT8"] ->
         fieldDeserialize value field = VNumber (Number_of_string value))
      /\ (type field = "SQLBIT" ->
         exists b, fieldDeserialize value field = VBoolean b
                   /\ (b = true <-> value = "1"))
      /\ (~ In (type field) (map fst typesMap_entries) ->
         fieldDeserialize value field = VString value)).
Proof.
  split; [|split].
  - intros ->. reflexivity.
  - intros ->. reflexivity.
  - intros H1 H2. rewrite (fieldDeserialize_typed value field H1 H2).
    split; [|split; [|split]].
    + intros Hin. simpl in Hin.
      destruct Hin as [<- | [<- | [<- | []]]]; reflexivity.
    + intros Hin. simpl in Hin.
      destruct Hin as [<- | [<- | [<- | [<- | [<- | [<- | []]]]]]]; reflexivity.
    + intros ->. exists (String.eqb value "1"). split; [reflexivity|].
      destruct (String.eqb_spec value "1"); split; congruence.
    + intros Hnot. now rewrite (typesMap_other _ Hnot).
Qed.
End Codec.

Lemma fieldDeserialize_cases_witness :
  @fieldDeserialize example_host "1"
     {| name := "f1"; type := "SQLBIT"; terminator := LF; inImport := false |}
  = VBoolean true
  /\ @fieldDeserialize example_host "42"
       {| name := "f0"; type := "SQLINT"; terminator := TAB; inImport := false |}
     = VNumber (42%Z : @number example_host)
  /\ @fieldDeserialize example_host "abc"
       {| name := "s"; type := "SQLNCHAR"; terminator := TAB; inImport := false |}
     = VString "abc"
  /\ @fieldDeserialize example_host NUL
       {| name := "s"; type := "SQLINT"; terminator := TAB; inImport := false |}
     = VString "".
Proof.
  split; [|split; [|split]].
  - destruct (@fieldDeserialize_cases example_host "1"
                {| name := "f1"; type := "SQLBIT"; terminator := LF; inImport := false |})
      as (_ & _ & H).
    destruct H as (_ & _ & Hbit & _); [discriminate | discriminate |].
    destruct (Hbit eq_refl) as (b & -> & Hb). f_equal. now apply Hb.
  - destruct (@fieldDeserialize_cases example_host "42"
                {| name := "f0"; type := "SQLINT"; terminator := TAB; inImport := false |})
      as (_ & _ & H).
    destruct H as (_ & Hnum & _); [discriminate | discriminate |].
    rewrite Hnum; [reflexivity | simpl; tauto].
  - destruct (@fieldDeserialize_cases example_host "abc"
                {| name := "s"; type := "SQLNCHAR"; terminator := TAB; inImport := false |})
      as (_ & _ & H).
    destruct H as (_ & _ & _ & Hother); [discriminate | discriminate |].
    apply Hother. simpl. intuition discriminate.
  - apply (@fieldDeserialize_cases example_host NUL
             {| name := "s"; type := "SQLINT"; terminator := TAB; inImport := false |}).
    reflexivity.
Defined.

(** * Facts about strings used by the reader *)

Lemma append_cons c s t : String c s +:+ t = String c (s +:+ t).
Proof. reflexivity. Qed.

Lemma append_nil_l s : "" +:+ s = s.
Proof. reflexivity. Qed.


Lemma append_assoc s t u : (s +:+ t) +:+ u = s +:+ t +:+ u.
Proof. induction s as [|c s IH]; [reflexivity|]. now rewrite !append_cons, IH. Qed.

Lemma length_append s t :
  String.length (s +:+ t) = String.length s + String.length t.
Proof. induction s as [|c s IH]; [reflexivity|]. rewrite append_cons. simpl. now rewrite IH. Qed.

Lemma prefix_nil s : String.prefix "" s = true.
Proof. destruct s; reflexivity. Qed.

Lemma prefix_cons a s1 b s2 :
  String.prefix (String a s1) (String b s2) =
    if ascii_dec a b then String.prefix s1 s2 else false.
Proof. reflexivity. Qed.

Lemma prefix_length t s :
  String.prefix t s = true -> String.length t <= String.length s.
Proof.
  revert s. induction t as [|a t IH]; intros s H; simpl; [lia|].
  destruct s as [|b s]; [discriminate H|].
  rewrite prefix_cons in H. destruct (ascii_dec a b); [|discriminate H].
  apply IH in H. simpl. lia.
Qed.

Lemma prefix_append t r : String.prefix t (t +:+ r) = true.
Proof.
  induction t as [|a t IH]; [apply prefix_nil|].
  rewrite append_cons, prefix_cons. destruct (ascii_dec a a); [exact IH | congruence].
Qed.


Lemma prefix_append_inv t x r :
  String.prefix t (x +:+ r) = true -> String.length t <= String.length x ->
  String.prefix t x = true.
Proof.
  revert x. induction t as [|a t IH]; intros x H Hlen; [apply prefix_nil|].
  destruct x as [|b x]; [simpl in Hlen; lia|].
  rewrite append_cons, prefix_cons in H. rewrite prefix_cons.
  destruct (ascii_dec a b); [|discriminate H].
  apply IH; [exact H | simpl in Hlen; lia].
Qed.


Lemma index_cons_0 t b s :
  String.index 0 t (String b s) =
    if String.prefix t (String b s) then Some 0
    else match String.index 0 t s with Some n => Some (S n) | None => None end.
Proof. reflexivity. Qed.

Lemma index_cons_S n t b s :
  String.index (S n) t (String b s) =
    match String.index n t s with Some k => Some (S k) | None => None end.
Proof. reflexivity. Qed.

Lemma index_bounds n t s m :
  String.index n t s = Some m ->
  n <= m /\ m + String.length t <= String.length s.
Proof.
  revert n m. induction s as [|b s IH]; intros n m H.
  - destruct n; [|discriminate H]. destruct t; [|discriminate H].
    injection H as <-. simpl. lia.
  - destruct n.
    + rewrite index_cons_0 in H.
      destruct (String.prefix t (String b s)) eqn:Hp.
      * injection H as <-. apply prefix_length in Hp. lia.
      * destruct (String.index 0 t s) as [k|] eqn:Hk; [|discriminate H].
        injection H as <-. apply IH in Hk. simpl. lia.
    + rewrite index_cons_S in H.
      destruct (String.index n t s) as [k|] eqn:Hk; [|discriminate H].
      injection H as <-. apply IH in Hk. simpl. lia.
Qed.

Lemma index_empty n s : n <= String.length s -> String.index n "" s = Some n.
Proof.
  revert n. induction s as [|b s IH]; intros n Hn.
  - simpl in Hn. assert (n = 0) as -> by lia. reflexivity.
  - destruct n.
    + rewrite index_cons_0, prefix_nil. reflexivity.
    + rewrite index_cons_S, IH; [reflexivity | simpl in Hn; lia].
Qed.

Lemma index_none_nonempty t r : String.index 0 t r = None -> t <> "".
Proof.
  intros H ->. rewrite index_empty in H; [discriminate H | lia].
Qed.

Lemma index_skip pre n t s :
  String.index (String.length pre + n) t (pre +:+ s) =
    match String.index n t s with
    | Some k => Some (String.length pre + k)
    | None => None
    end.
Proof.
  induction pre as [|c pre IH].
  - rewrite append_nil_l. simpl. destruct (String.index n t s); reflexivity.
  - rewrite append_cons. simpl String.length. simpl Nat.add.
    rewrite index_cons_S, IH. destruct (String.index n t s); reflexivity.
Qed.

Lemma index_first_ext v t rest :
  String.index 0 t (v +:+ t) = Some (String.length v) ->
  String.index 0 t (v +:+ t +:+ rest) = Some (String.length v).
Proof.
  induction v as [|c v IH]; intros H.
  - rewrite append_nil_l. simpl String.length.
    destruct (t +:+ rest) as [|b s] eqn:E.
    + destruct t; [reflexivity | discriminate E].
    + rewrite index_cons_0, <- E, prefix_append. reflexivity.
  - rewrite append_cons in *. rewrite index_cons_0 in *.
    destruct (String.prefix t (String c (v +:+ t))) eqn:Hp; [discriminate H|].
    destruct (String.prefix t (String c (v +:+ t +:+ rest))) eqn:Hp'.
    + rewrite <- append_assoc, <- append_cons in Hp'.
      apply prefix_append_inv in Hp'.
      * congruence.
      * simpl. rewrite length_append. lia.
    + destruct (String.index 0 t (v +:+ t)) as [k|] eqn:Hk; [|discriminate H].
      injection H as Hk'. simpl in Hk'. subst k.
      rewrite IH; [reflexivity | reflexivity].
Qed.

Lemma substring_0_append v rest :
  String.substring 0 (String.length v) (v +:+ rest) = v.
Proof.
  induction v as [|c v IH]; [destruct rest; reflexivity|].
  rewrite append_cons. simpl. now rewrite IH.
Qed.

Lemma substring_skip pre m s :
  String.substring (String.length pre) m (pre +:+ s) = String.substring 0 m s.
Proof.
  induction pre as [|c pre IH]; [reflexivity|].
  rewrite append_cons. simpl. exact IH.
Qed.

(** * Properties of the reader *)

Lemma indexOf_bounds data t i dex :
  indexOf data t i = Some dex -> i <= String.length data ->
  i <= dex /\ dex + String.length t <= String.length data.
Proof.
  unfold indexOf. intros H Hi. rewrite Nat.min_l in H by exact Hi.
  now apply index_bounds in H.
Qed.

Lemma indexOf_empty data i :
  i <= String.length data -> indexOf data "" i = Some i.
Proof.
  intros Hi. unfold indexOf. rewrite Nat.min_l by exact Hi. now apply index_empty.
Qed.

Lemma indexOf_at pre v t rest :
  first_at v t ->
  indexOf (pre +:+ v +:+ t +:+ rest) t (String.length pre)
  = Some (String.length pre + String.length v).
Proof.
  intros Hf. unfold indexOf.
  rewrite Nat.min_l by (rewrite length_append; lia).
  rewrite <- (Nat.add_0_r (String.length pre)) at 1.
  rewrite index_skip, (index_first_ext v t rest Hf). reflexivity.
Qed.

Lemma indexOf_none pre t r :
  String.index 0 t r = None -> indexOf (pre +:+ r) t (String.length pre) = None.
Proof.
  intros Hn. unfold indexOf.
  rewrite Nat.min_l by (rewrite length_append; lia).
  rewrite <- (Nat.add_0_r (String.length pre)).
  now rewrite index_skip, Hn.
Qed.

Lemma js_substring_at pre v rest :
  js_substring (pre +:+ v +:+ rest) (String.length pre)
               (String.length pre + String.length v) = v.
Proof.
  unfold js_substring. rewrite !length_append.
  rewrite (Nat.min_l (String.length pre)) by lia.
  rewrite (Nat.min_l (String.length pre + String.length v)) by lia.
  rewrite Nat.min_l, Nat.max_r by lia.
  replace (String.length pre + String.length v - String.length pre)
    with (String.length v) by lia.
  rewrite substring_skip. apply substring_0_append.
Qed.

Lemma encode_row_length fs vs m fm :
  well_terminated fs vs -> fs !! m = Some fm ->
  String.length (terminator fm) <= String.length (encode_row fs vs).
Proof.
  intros Hw. revert m. induction Hw as [|f v fs vs Hfv Hw IH]; intros m Hm.
  - discriminate Hm.
  - simpl encode_row. rewrite !length_append. destruct m as [|m].
    + injection Hm as ->. lia.
    + simpl in Hm. specialize (IH m Hm). lia.
Qed.

Section ReaderFacts.
Context {host : Host}.

Lemma read_row_complete fs vs :
  well_terminated fs vs ->
  forall pre rest o,
    read_row (pre +:+ encode_row fs vs +:+ rest) fs (String.length pre) o
    = Some (decode_row fs vs o, String.length pre + String.length (encode_row fs vs)).
Proof.
  induction 1 as [|f v fs vs Hfv Hw IH]; intros pre rest o.
  - simpl. now rewrite Nat.add_0_r.
  - simpl encode_row. simpl read_row. rewrite !append_assoc.
    rewrite (indexOf_at pre v (terminator f) _ Hfv).
    rewrite js_substring_at.
    specialize (IH ((pre +:+ v) +:+ terminator f) rest
                   (<[name f := fieldDeserialize v f]> o)).
    rewrite !append_assoc in IH. rewrite !length_append in IH.
    rewrite <- Nat.add_assoc. rewrite IH. simpl decode_row.
    rewrite !length_append. f_equal. f_equal. lia.
Qed.

Lemma read_row_truncated part r fm :
  String.index 0 (terminator fm) r = None ->
  forall fs pre o,
    well_terminated (take (length part) fs) part ->
    fs !! length part = Some fm ->
    read_row (pre +:+ encode_row fs part +:+ r) fs (String.length pre) o = None.
Proof.
  intros Hr. induction part as [|v part IH]; intros fs pre o Hw Hm.
  - destruct fs as [|f fs]; [discriminate Hm|]. injection Hm as ->.
    simpl encode_row. rewrite append_nil_l. simpl read_row.
    now rewrite (indexOf_none pre _ r Hr).
  - destruct fs as [|f fs]; [discriminate Hm|]. simpl in Hm, Hw.
    apply Forall2_cons_1 in Hw as [Hfv Hw].
    simpl encode_row. simpl read_row. rewrite !append_assoc.
    rewrite (indexOf_at pre v (terminator f) _ Hfv).
    rewrite js_substring_at.
    specialize (IH fs ((pre +:+ v) +:+ terminator f)
                   (<[name f := fieldDeserialize v f]> o) Hw Hm).
    rewrite !append_assoc in IH. rewrite !length_append in IH.
    rewrite <- Nat.add_assoc. exact IH.
Qed.

Lemma data_loop_truncated fs part r fm :
  well_terminated (take (length part) fs) part ->
  fs !! length part = Some fm ->
  String.index 0 (terminator fm) r = None ->
  forall rows pre acc fuel,
    Forall (well_terminated fs) rows ->
    length rows < fuel ->
    data_loop fuel (pre +:+ encode_rows fs rows +:+ encode_row fs part +:+ r)
              fs (String.length pre) acc
    = Some (acc ++ map (fun vs => decode_row fs vs ∅) rows).
Proof.
  intros Hpart Hm Hr. induction rows as [|vs rows IH]; intros pre acc fuel Hrows Hfuel.
  - destruct fuel as [|fuel]; [simpl in Hfuel; lia|].
    simpl encode_rows. rewrite append_nil_l. simpl data_loop.
    rewrite (read_row_truncated part r fm Hr fs pre ∅ Hpart Hm).
    rewrite app_nil_r. now destruct (_ <? _).
  - destruct fuel as [|fuel]; [simpl in Hfuel; lia|].
    apply Forall_cons_1 in Hrows as [Hvs Hrows].
    simpl encode_rows. simpl data_loop. rewrite append_assoc.
    pose proof (encode_row_length fs vs _ fm Hvs Hm) as Hlen.
    pose proof (index_none_nonempty _ _ Hr) as Hne.
    assert (0 < String.length (terminator fm))
      by (destruct (terminator fm); [congruence | simpl; lia]).
    replace (String.length pre <? _) with true
      by (symmetry; apply Nat.ltb_lt; rewrite !length_append; lia).
    rewrite (read_row_complete fs vs Hvs pre _ ∅).
    specialize (IH (pre +:+ encode_row fs vs) (acc ++ [decode_row fs vs ∅]) fuel Hrows).
    rewrite append_assoc, length_append in IH. rewrite IH by (simpl in Hfuel; lia).
    simpl map. now rewrite <- app_assoc.
Qed.
End ReaderFacts.

Section ReaderTermination.
Context {host : Host}.

(** One pass over the fields never moves the offset back nor past the end,
    and moves it forward when some terminator is not empty. *)
Lemma read_row_advance data fs :
  forall i o o' i',
    read_row data fs i o = Some (o', i') -> i <= String.length data ->
    i <= i' /\ i' <= String.length data
    /\ (Exists (fun f => terminator f <> "") fs -> i < i').
Proof.
  induction fs as [|f fs IH]; intros i o o' i' H Hi.
  - injection H as _ <-. split; [lia|]. split; [lia|].
    intros Hex. inversion Hex.
  - simpl in H. destruct (indexOf data (terminator f) i) as [dex|] eqn:Hdex;
      [|discriminate H].
    destruct (indexOf_bounds _ _ _ _ Hdex Hi) as [Hlo Hhi].
    apply IH in H; [|exact Hhi]. destruct H as (H1 & H2 & H3).
    split; [lia|]. split; [lia|].
    intros Hex. inversion Hex as [? ? Hne | ? ? Hrest]; subst.
    + assert (0 < String.length (terminator f))
        by (destruct (terminator f); [congruence | simpl; lia]).
      lia.
    + specialize (H3 Hrest). lia.
Qed.

Lemma data_loop_terminates data fs :
  Exists (fun f => terminator f <> "") fs ->
  forall fuel i acc,
    i <= String.length data -> String.length data - i < fuel ->
    exists rows, data_loop fuel data fs i acc = Some rows.
Proof.
  intros Hex. induction fuel as [|fuel IH]; intros i acc Hi Hfuel; [lia|].
  simpl. destruct (Nat.ltb_spec i (String.length data)) as [Hlt|Hge]; [|eauto].
  destruct (read_row data fs i ∅) as [[o i']|] eqn:Hrow; [|eauto].
  destruct (read_row_advance _ _ _ _ _ _ Hrow Hi) as (H1 & H2 & H3).
  specialize (H3 Hex). apply IH; lia.
Qed.

Lemma data_loop_more_fuel data fs :
  forall fuel fuel' i acc rows,
    data_loop fuel data fs i acc = Some rows -> fuel <= fuel' ->
    data_loop fuel' data fs i acc = Some rows.
Proof.
  induction fuel as [|fuel IH]; intros fuel' i acc rows H Hle; [discriminate H|].
  destruct fuel' as [|fuel']; [lia|]. simpl in *.
  destruct (i <? String.length data); [|exact H].
  destruct (read_row data fs i ∅) as [[o i']|]; [|exact H].
  apply (IH fuel'); [exact H | lia].
Qed.

(** With terminators all empty, a pass over the fields leaves the offset
    where it was. *)
Lemma read_row_stays data fs :
  Forall (fun f => terminator f = "") fs ->
  forall i o, i <= String.length data ->
    exists o', read_row data fs i o = Some (o', i).
Proof.
  induction 1 as [|f fs Hf Hall IH]; intros i o Hi; [simpl; eauto|].
  simpl. rewrite Hf, (indexOf_empty data i Hi). simpl String.length.
  rewrite Nat.add_0_r. apply IH. exact Hi.
Qed.

Lemma data_loop_stuck data fs i :
  i < String.length data ->
  (exists o', read_row data fs i ∅ = Some (o', i)) ->
  forall fuel acc, data_loop fuel data fs i acc = None.
Proof.
  intros Hi (o' & Hrow). induction fuel as [|fuel IH]; intros acc; [reflexivity|].
  simpl. replace (i <? String.length data) with true
    by (symmetry; now apply Nat.ltb_lt).
  rewrite Hrow. apply IH.
Qed.

(** C8: the loop exits on every buffer when there is a field and every
    terminator is non-empty; with no field, or with terminators all empty,
    the offset stays at 0 on a non-empty buffer and the loop never exits. *)
Theorem readExport_termination :
  (forall data format,
      fields format <> [] ->
      Forall (fun f => terminator f <> "") (fields format) ->
      exists rows, forall fuel,
          String.length data < fuel ->
          readExport_rows fuel data format = Some rows)
  /\ (forall data format,
      data <> "" ->
      fields format = [] \/ Forall (fun f => terminator f = "") (fields format) ->
      (exists o', read_row data (fields format) 0 ∅ = Some (o', 0))
      /\ forall fuel, readExport_rows fuel data format = None).
Proof.
  split.
  - intros data format Hne Hall. unfold readExport_rows.
    assert (Hex : Exists (fun f => terminator f <> "") (fields format)).
    { destruct (fields format) as [|f fs]; [congruence|].
      apply Exists_cons_hd. now apply Forall_cons_1 in Hall as [? _]. }
    destruct (data_loop_terminates data _ Hex (S (String.length data)) 0 [])
      as [rows Hrows]; [lia | lia |].
    exists rows. intros fuel Hfuel.
    apply (data_loop_more_fuel _ _ _ _ _ _ _ Hrows). lia.
  - intros data format Hne Hcase. unfold readExport_rows.
    assert (Hlen : 0 < String.length data)
      by (destruct data; [congruence | simpl; lia]).
    assert (Hstay : exists o', read_row data (fields format) 0 ∅ = Some (o', 0)).
    { destruct Hcase as [-> | Hall]; [simpl; eauto|].
      apply read_row_stays; [exact Hall | lia]. }
    split; [exact Hstay|]. intros fuel. now apply data_loop_stuck.
Qed.
End ReaderTermination.

(** * Properties of the pipelines *)

Lemma bind_Ok {A B} (m : M A) (k : A -> M B) tr a tr1 :
  m tr = (Ok a, tr1) -> bind m k tr = k a tr1.
Proof. intros H. unfold bind. now rewrite H. Qed.

Lemma bind_Ok_inv {A B} (m : M A) (k : A -> M B) tr b tr' :
  bind m k tr = (Ok b, tr') ->
  exists a tr1, m tr = (Ok a, tr1) /\ k a tr1 = (Ok b, tr').
Proof.
  unfold bind. destruct (m tr) as [[a|e|] tr1]; intros H; try discriminate H.
  eauto.
Qed.

Lemma bind_Failed_inv {A B} (m : M A) (k : A -> M B) tr e tr' :
  bind m k tr = (Failed e, tr') ->
  m tr = (Failed e, tr')
  \/ exists a tr1, m tr = (Ok a, tr1) /\ k a tr1 = (Failed e, tr').
Proof.
  unfold bind. destruct (m tr) as [[a|e0|] tr1]; intros H.
  - right. eauto.
  - left. injection H as -> ->. reflexivity.
  - discriminate H.
Qed.

Lemma emits_ret {A} P (a : A) : emits P (ret a).
Proof.
  intros tr o tr' H. injection H as <- <-. exists []. now rewrite app_nil_r.
Qed.


Lemma emits_diverged {A} P : emits P (fun tr => (@Diverged A, tr)).
Proof.
  intros tr o tr' H. injection H as <- <-. exists []. now rewrite app_nil_r.
Qed.

Lemma emits_bind {A B} P (m : M A) (k : A -> M B) :
  emits P m -> (forall a, emits P (k a)) -> emits P (bind m k).
Proof.
  intros Hm Hk tr o tr' H. unfold bind in H.
  destruct (m tr) as [[a|e|] tr1] eqn:Em.
  - destruct (Hm _ _ _ Em) as (ev1 & -> & H1).
    destruct (Hk a _ _ _ H) as (ev2 & -> & H2).
    exists (ev1 ++ ev2). split; [now rewrite app_assoc | now apply Forall_app].
  - injection H as <- <-. exact (Hm _ _ _ Em).
  - injection H as <- <-. exact (Hm _ _ _ Em).
Qed.

Lemma emits_parallel P (tasks : list (M unit)) :
  Forall (emits P) tasks -> emits P (parallel tasks).
Proof.
  induction 1 as [|t tasks Ht Hall IH]; [apply emits_ret|].
  intros tr o tr' H. simpl in H.
  destruct (t tr) as [[[]|e|] tr1] eqn:Et.
  - destruct (Ht _ _ _ Et) as (ev1 & -> & H1).
    destruct (IH _ _ _ H) as (ev2 & -> & H2).
    exists (ev1 ++ ev2). split; [now rewrite app_assoc | now apply Forall_app].
  - destruct (Ht _ _ _ Et) as (ev1 & -> & H1).
    destruct (parallel tasks (tr ++ ev1)) as [o2 tr2] eqn:Ep.
    destruct (IH _ _ _ Ep) as (ev2 & -> & H2).
    exists (ev1 ++ ev2). split; [|now apply Forall_app].
    rewrite app_assoc. destruct o2; now injection H as <- <-.
  - injection H as <- <-. exact (Ht _ _ _ Et).
Qed.

Section PipelineFacts.
Context {host : Host}.
Variable w : World.

Lemma emits_of_answer {A} P ev (ans : list Event -> JSError + A) :
  P ev -> emits P (of_answer ev ans).
Proof.
  intros Hev tr o tr' H. unfold of_answer in H. exists [ev].
  split; [|now repeat constructor].
  destruct (ans tr); now injection H as <- <-.
Qed.

Lemma emits_of_status P ev (ans : list Event -> option JSError) :
  P ev -> emits P (of_status ev ans).
Proof.
  intros Hev tr o tr' H. unfold of_status in H. exists [ev].
  split; [|now repeat constructor].
  destruct (ans tr); now injection H as <- <-.
Qed.

Lemma emits_ensureDirectories P files :
  (forall d, P (Mkdirp d)) -> emits P (ensureDirectories w files).
Proof.
  intros HP. unfold ensureDirectories. apply emits_parallel.
  apply List.Forall_forall. intros t Ht. apply in_map_iff in Ht as (d & <- & _).
  apply emits_of_status, HP.
Qed.

Lemma emits_formatGenerate P bcp table file args :
  (forall c, P (ChildProcess_exec c)) -> (forall f, P (FormatFile_fromFile f)) ->
  emits P (formatGenerate w bcp table file args).
Proof.
  intros H1 H2. unfold formatGenerate. apply emits_bind.
  - apply emits_of_answer, H1.
  - intros _. apply emits_of_answer, H2.
Qed.

Lemma emits_readExport P fuel file format :
  (forall f e, P (Fs_readFile f e)) -> emits P (readExport w fuel file format).
Proof.
  intros HP. unfold readExport. apply emits_bind.
  - apply emits_of_answer, HP.
  - intros data. destruct (readExport_rows fuel data format);
      [apply emits_ret | apply emits_diverged].
Qed.

(** A successful format generation made exactly two calls. *)
Lemma formatGenerate_Ok bcp table file args tr format tr' :
  formatGenerate w bcp table file args tr = (Ok format, tr') ->
  tr' = tr ++ [ChildProcess_exec (format_cmd bcp table file args);
               FormatFile_fromFile file].
Proof.
  unfold formatGenerate, child_exec, fromFile, bind, of_answer. intros H.
  destruct (exec_answer w tr _); [discriminate H|].
  destruct (fromFile_answer w _ file); [discriminate H|].
  injection H as _ <-. now rewrite <- app_assoc.
Qed.

(** The cleanup step, when files are not kept, attempts both deletions. *)
Lemma cleanup_unlinks options ff ef tr o tr' :
  truthy (prop options "keepFiles") = false ->
  cleanup w options ff ef tr = (o, tr') ->
  tr' = tr ++ [Fs_unlink ff; Fs_unlink ef].
Proof.
  intros Hk. unfold cleanup. rewrite Hk. simpl. unfold unlink, of_status, ret.
  destruct (unlink_answer w tr ff); destruct (unlink_answer w (tr ++ [Fs_unlink ff]) ef);
    intros H; injection H as _ <-; now rewrite <- app_assoc.
Qed.
End PipelineFacts.

(** ** Option merging *)

(** [mergeOptions] keeps exactly the keys of [defaults]; a key also present
    in [overrides] takes the caller's value. *)
Lemma mergeOptions_lookup (defaults : JSObject) overrides k :
  mergeOptions defaults overrides !! k =
    match defaults !! k with
    | None => None
    | Some v =>
        Some (match overrides with
              | Some ov => match ov !! k with Some v' => v' | None => v end
              | None => v
              end)
    end.
Proof.
  destruct overrides as [ov|]; simpl.
  - rewrite map_lookup_imap. destruct (defaults !! k); reflexivity.
  - destruct (defaults !! k); reflexivity.
Qed.

Lemma bulkExport_defaults_other k :
  k <> "read" -> k <> "keepFiles" -> bulkExport_defaults !! k = None.
Proof.
  intros H1 H2. unfold bulkExport_defaults.
  rewrite lookup_insert_ne by congruence. rewrite lookup_insert_ne by congruence.
  apply lookup_empty.
Qed.

Lemma bulkExport_options_other overrides k :
  k <> "read" -> k <> "keepFiles" -> bulkExport_options overrides !! k = None.
Proof.
  intros H1 H2. unfold bulkExport_options.
  destruct (negb _).
  - rewrite lookup_insert_ne by congruence.
    now rewrite mergeOptions_lookup, bulkExport_defaults_other.
  - now rewrite mergeOptions_lookup, bulkExport_defaults_other.
Qed.

Lemma bulkExport_options_read overrides :
  prop (bulkExport_options overrides) "read" =
    match overrides with
    | Some ov => match ov !! "read" with Some v => v | None => JBool true end
    | None => JBool true
    end.
Proof.
  unfold bulkExport_options, prop. destruct (negb _).
  - rewrite lookup_insert_ne by discriminate.
    rewrite mergeOptions_lookup. reflexivity.
  - rewrite mergeOptions_lookup. reflexivity.
Qed.

Lemma bulkExport_options_keepFiles overrides :
  truthy (prop (bulkExport_options overrides) "read") = false ->
  prop (bulkExport_options overrides) "keepFiles" = JBool true.
Proof.
  intros Hr. pose proof Hr as Hr'. rewrite bulkExport_options_read in Hr'.
  unfold bulkExport_options, prop in *.
  destruct (negb (truthy (default JUndefined
                            (mergeOptions bulkExport_defaults overrides !! "read"))))
    eqn:E.
  - now rewrite lookup_insert_eq.
  - rewrite Hr in E. discriminate E.
Qed.

Section PathFacts.
Context {host : Host}.
Variable w : World.

Lemma bulkExport_formatFile_temp bcp overrides :
  bulkExport_formatFile w bcp (bulkExport_options overrides)
  = tempFile w bcp +:+ "_format.xml".
Proof.
  unfold bulkExport_formatFile, prop.
  now rewrite bulkExport_options_other by discriminate.
Qed.

Lemma bulkExport_exportFile_temp bcp overrides :
  bulkExport_exportFile w bcp (bulkExport_options overrides)
  = tempFile w bcp +:+ "_export.dat".
Proof.
  unfold bulkExport_exportFile, prop.
  now rewrite bulkExport_options_other by discriminate.
Qed.

Lemma parse_rowCount_files details out :
  d_formatFile (parse_rowCount details out) = d_formatFile details
  /\ d_exportFile (parse_rowCount details out) = d_exportFile details.
Proof. unfold parse_rowCount. destruct (rows_copied_exec out); now split. Qed.

(** What a successful export returns as details. *)
Lemma bulkExport_Ok_details fuel bcp table overrides tr rows d tr' :
  bulkExport w fuel bcp table overrides tr = (Ok (rows, d), tr') ->
  exists out,
    d = parse_rowCount
          {| d_formatFile := bulkExport_formatFile w bcp (bulkExport_options overrides);
             d_exportFile := bulkExport_exportFile w bcp (bulkExport_options overrides);
             rowCount := 0; stdout := None |} out.
Proof.
  unfold bulkExport. intros H.
  apply bind_Ok_inv in H as (_ & tr1 & _ & H).
  apply bind_Ok_inv in H as (format & tr2 & _ & H).
  apply bind_Ok_inv in H as (out & tr3 & _ & H).
  apply bind_Ok_inv in H as (rows' & tr4 & _ & H).
  apply bind_Ok_inv in H as (_ & tr5 & _ & H).
  injection H as _ <- _. now exists out.
Qed.

(** C10: after merging, only [read] and [keepFiles] exist in the options, so
    [formatFile] and [exportFile] read as [undefined] whatever the caller
    passed, and both paths are the fresh temp path under [bcp.tmp] with
    their suffix. *)
Theorem bulkExport_paths bcp overrides :
  (forall k, k <> "read" -> k <> "keepFiles" ->
             bulkExport_options overrides !! k = None)
  /\ prop (bulkExport_options overrides) "formatFile" = JUndefined
  /\ prop (bulkExport_options overrides) "exportFile" = JUndefined
  /\ bulkExport_formatFile w bcp (bulkExport_options overrides)
     = Path_join (tmp bcp)
                 (pretty (now w) +:+ "_" +:+ pretty (random w) +:+ "_" +:+ pretty (pid w))
       +:+ "_format.xml"
  /\ bulkExport_exportFile w bcp (bulkExport_options overrides)
     = Path_join (tmp bcp)
                 (pretty (now w) +:+ "_" +:+ pretty (random w) +:+ "_" +:+ pretty (pid w))
       +:+ "_export.dat"
  /\ (forall fuel table tr rows d tr',
         bulkExport w fuel bcp table overrides tr = (Ok (rows, d), tr') ->
         d_formatFile d = tempFile w bcp +:+ "_format.xml"
         /\ d_exportFile d = tempFile w bcp +:+ "_export.dat").
Proof.
  split; [intros k; apply bulkExport_options_other|].
  split; [unfold prop; now rewrite bulkExport_options_other by discriminate|].
  split; [unfold prop; now rewrite bulkExport_options_other by discriminate|].
  split; [apply bulkExport_formatFile_temp|].
  split; [apply bulkExport_exportFile_temp|].
  intros fuel table tr rows d tr' H.
  apply bulkExport_Ok_details in H as [out ->].
  destruct (parse_rowCount_files
              {| d_formatFile := bulkExport_formatFile w bcp (bulkExport_options overrides);
                 d_exportFile := bulkExport_exportFile w bcp (bulkExport_options overrides);
                 rowCount := 0; stdout := None |} out) as [-> ->].
  simpl. split; [apply bulkExport_formatFile_temp | apply bulkExport_exportFile_temp].
Qed.
End PathFacts.

Lemma bulkExport_paths_witness :
  let w := example_world "" "" example_format in
  let ov := Some (<["formatFile" := JStr "/x/fmt.xml"]> (∅ : JSObject)) in
  bulkExport_options ov !! "formatFile" = None
  /\ d_formatFile
       (snd (match fst (@bulkExport example_host w 3 example_trusted_bcp "t" ov []) with
             | Ok rd => rd
             | _ => (None, {| d_formatFile := ""; d_exportFile := "";
                              rowCount := 0; stdout := None |})
             end))
     = "/home/u/.bcp/1700000000000_42_4242_format.xml".
Proof.
  intros w ov.
  destruct (@bulkExport_paths example_host w example_trusted_bcp ov)
    as (Hk & _ & _ & _ & _ & Hrun).
  split; [apply Hk; discriminate|].
  destruct (@bulkExport example_host w 3 example_trusted_bcp "t" ov [])
    as [[[rows d]|e|] tr'] eqn:E; try (vm_compute in E; discriminate E).
  simpl. destruct (Hrun 3 "t" [] rows d tr' E) as [-> _]. vm_compute. reflexivity.
Defined.

Section ExportFacts.
Context {host : Host}.
Variable w : World.

Lemma not_unlink_Mkdirp d : not_unlink (Mkdirp d).
Proof. intros f. discriminate. Qed.
Lemma not_unlink_exec c : not_unlink (ChildProcess_exec c).
Proof. intros f. discriminate. Qed.
Lemma not_unlink_fromFile x : not_unlink (FormatFile_fromFile x).
Proof. intros f. discriminate. Qed.
Lemma not_unlink_readFile x e : not_unlink (Fs_readFile x e).
Proof. intros f. discriminate. Qed.

(** With [keepFiles] truthy after the adjustment, no step of the export
    unlinks anything. *)
Lemma bulkExport_kept fuel bcp table overrides :
  truthy (prop (bulkExport_options overrides) "keepFiles") = true ->
  emits not_unlink (bulkExport w fuel bcp table overrides).
Proof.
  intros Hk. unfold bulkExport.
  apply emits_bind; [apply emits_ensureDirectories, not_unlink_Mkdirp|]. intros _.
  apply emits_bind;
    [apply emits_formatGenerate; [apply not_unlink_exec | apply not_unlink_fromFile]|].
  intros format.
  apply emits_bind; [apply emits_of_answer, not_unlink_exec|]. intros out.
  apply emits_bind.
  { unfold read_results.
    destruct (truthy (prop (bulkExport_options overrides) "read")); [|apply emits_ret].
    apply emits_bind; [apply emits_readExport, not_unlink_readFile|].
    intros rows. apply emits_ret. }
  intros rows. apply emits_bind; [|intros _; apply emits_ret].
  unfold cleanup. rewrite Hk. apply emits_ret.
Qed.

(** The read step fails only with the error of [Fs.readFile]. *)
Lemma read_results_Failed fuel options ef format tr e tr' :
  read_results w fuel options ef format tr = (Failed e, tr') ->
  readFile_answer w tr ef (encoding format) = inl e.
Proof.
  unfold read_results. destruct (truthy _); [|discriminate].
  unfold readExport, readFile, bind, of_answer, ret.
  destruct (readFile_answer w tr ef (encoding format)) as [e0|data].
  - intros H. now injection H as <- _.
  - destruct (readExport_rows fuel data format); discriminate.
Qed.

(** The cleanup step fails only with the error of one of the two unlinks. *)
Lemma cleanup_Failed options ff ef tr e tr' :
  cleanup w options ff ef tr = (Failed e, tr') ->
  unlink_answer w tr ff = Some e
  \/ unlink_answer w (tr ++ [Fs_unlink ff]) ef = Some e.
Proof.
  unfold cleanup. destruct (truthy _); [discriminate|].
  simpl. unfold unlink, of_status, ret.
  destruct (unlink_answer w tr ff) as [e1|];
    destruct (unlink_answer w (tr ++ [Fs_unlink ff]) ef) as [e2|];
    intros H; try discriminate H; injection H as <- _; auto.
Qed.

(** C7: when the caller's options set [read] to a falsy value the export
    makes no unlink call, whatever [keepFiles] was; with the default options
    a run that succeeds ends with the unlink of the format file and of the
    export file. *)
Theorem bulkExport_keepFiles :
  (forall fuel bcp table (ov : JSObject) v tr o tr',
      ov !! "read" = Some v -> truthy v = false ->
      bulkExport w fuel bcp table (Some ov) tr = (o, tr') ->
      exists evs, tr' = tr ++ evs /\ Forall not_unlink evs)
  /\ (prop (bulkExport_options None) "read" = JBool true
      /\ prop (bulkExport_options None) "keepFiles" = JBool false)
  /\ (forall fuel bcp table tr rows d tr',
      bulkExport w fuel bcp table None tr = (Ok (rows, d), tr') ->
      exists tr0, tr' = tr0 ++ [Fs_unlink (d_formatFile d); Fs_unlink (d_exportFile d)]).
Proof.
  split; [|split].
  - intros fuel bcp table ov v tr o tr' Hv Hf H.
    apply (bulkExport_kept fuel bcp table (Some ov)) in H; [exact H|].
    rewrite bulkExport_options_keepFiles; [reflexivity|].
    rewrite bulkExport_options_read, Hv. exact Hf.
  - split; reflexivity.
  - intros fuel bcp table tr rows d tr' H.
    pose proof (bulkExport_Ok_details w _ _ _ _ _ _ _ _ H) as [out0 Hd].
    unfold bulkExport in H.
    apply bind_Ok_inv in H as (_ & tr1 & _ & H).
    apply bind_Ok_inv in H as (format & tr2 & _ & H).
    apply bind_Ok_inv in H as (out & tr3 & _ & H).
    apply bind_Ok_inv in H as (rows' & tr4 & _ & H).
    apply bind_Ok_inv in H as ([] & tr5 & Hc & H).
    injection H as _ _ <-.
    apply cleanup_unlinks in Hc; [|reflexivity].
    exists tr4. rewrite Hc, Hd.
    destruct (parse_rowCount_files
                {| d_formatFile := bulkExport_formatFile w bcp (bulkExport_options None);
                   d_exportFile := bulkExport_exportFile w bcp (bulkExport_options None);
                   rowCount := 0; stdout := None |} out0) as [-> ->].
    reflexivity.
Qed.

(** C9: when the tool's output has no summary line, the row count stays 0
    and the run goes on with the read and cleanup steps as it always does;
    when these succeed the export succeeds, reporting [rowCount] 0, and a
    failure, if any, is the error of the file read or of an unlink. *)
Theorem bulkExport_no_summary fuel bcp table overrides tr tr1 tr2 tr3 format out :
  let options := bulkExport_options overrides in
  let ff := bulkExport_formatFile w bcp options in
  let ef := bulkExport_exportFile w bcp options in
  let common := getCommonArgs bcp false in
  let qt := getQualifiedTable bcp table in
  let details := {| d_formatFile := ff; d_exportFile := ef;
                    rowCount := 0; stdout := Some out |} in
  ensureDirectories w [ff; ef] tr = (Ok tt, tr1) ->
  formatGenerate w bcp qt ff common tr1 = (Ok format, tr2) ->
  child_exec w (export_cmd bcp qt ef common) tr2 = (Ok out, tr3) ->
  rows_copied_exec out = None ->
  bulkExport w fuel bcp table overrides tr
  = (rows <- read_results w fuel options ef format ;;
     cleanup w options ff ef ;;;
     ret (rows, details)) tr3
  /\ (forall rows tr4 tr5,
         read_results w fuel options ef format tr3 = (Ok rows, tr4) ->
         cleanup w options ff ef tr4 = (Ok tt, tr5) ->
         bulkExport w fuel bcp table overrides tr = (Ok (rows, details), tr5))
  /\ (forall rows d tr',
         bulkExport w fuel bcp table overrides tr = (Ok (rows, d), tr') ->
         rowCount d = 0%Z /\ stdout d = Some out)
  /\ (forall e tr',
         bulkExport w fuel bcp table overrides tr = (Failed e, tr') ->
         (exists tr0, readFile_answer w tr0 ef (encoding format) = inl e)
         \/ (exists tr0 f, unlink_answer w tr0 f = Some e)).
Proof.
  intros options ff ef common qt details H1 H2 H3 Hno.
  assert (Heq : bulkExport w fuel bcp table overrides tr
                = (rows <- read_results w fuel options ef format ;;
                   cleanup w options ff ef ;;;
                   ret (rows, details)) tr3).
  { unfold bulkExport. fold options. fold ff. fold ef. fold common. fold qt.
    rewrite (bind_Ok _ _ _ _ _ H1), (bind_Ok _ _ _ _ _ H2), (bind_Ok _ _ _ _ _ H3).
    unfold parse_rowCount. rewrite Hno. reflexivity. }
  split; [exact Heq|]. split; [|split].
  - intros rows tr4 tr5 Hr Hc. rewrite Heq.
    rewrite (bind_Ok _ _ _ _ _ Hr), (bind_Ok _ _ _ _ _ Hc). reflexivity.
  - intros rows d tr' H. rewrite Heq in H.
    apply bind_Ok_inv in H as (rows' & tr4 & _ & H).
    apply bind_Ok_inv in H as (_ & tr5 & _ & H).
    injection H as _ <- _. split; reflexivity.
  - intros e tr' H. rewrite Heq in H.
    apply bind_Failed_inv in H as [H | (rows & tr4 & _ & H)].
    + left. exists tr3. exact (read_results_Failed _ _ _ _ _ _ _ H).
    + apply bind_Failed_inv in H as [H | (u & tr5 & _ & H)]; [|discriminate H].
      right. apply cleanup_Failed in H as [H | H]; eauto.
Qed.
End ExportFacts.

Lemma bulkExport_keepFiles_witness :
  let w := example_world "" "" example_format in
  let ov : JSObject := <["read" := JBool false]> (<["keepFiles" := JBool false]> ∅) in
  (exists evs,
      snd (@bulkExport example_host w 3 example_trusted_bcp "t" (Some ov) []) = [] ++ evs
      /\ Forall not_unlink evs)
  /\ (exists tr0,
      snd (@bulkExport example_host w 3 example_trusted_bcp "t" None [])
      = tr0 ++ [Fs_unlink "/home/u/.bcp/1700000000000_42_4242_format.xml";
                Fs_unlink "/home/u/.bcp/1700000000000_42_4242_export.dat"]).
Proof.
  intros w ov.
  destruct (@bulkExport_keepFiles example_host w) as (Hkeep & _ & Hdel).
  split.
  - destruct (@bulkExport example_host w 3 example_trusted_bcp "t" (Some ov) [])
      as [o tr'] eqn:E.
    apply (Hkeep 3 example_trusted_bcp "t" ov (JBool false) [] o tr');
      [reflexivity | reflexivity | exact E].
  - destruct (@bulkExport example_host w 3 example_trusted_bcp "t" None [])
      as [[[rows d]|e|] tr'] eqn:E; try (vm_compute in E; discriminate E).
    destruct (Hdel 3 example_trusted_bcp "t" [] rows d tr' E) as [tr0 Htr0].
    exists tr0. simpl. rewrite Htr0.
    assert (Hd : d_formatFile d = "/home/u/.bcp/1700000000000_42_4242_format.xml"
                 /\ d_exportFile d = "/home/u/.bcp/1700000000000_42_4242_export.dat").
    { vm_compute in E. injection E as _ <- _. split; reflexivity. }
    destruct Hd as [-> ->]. reflexivity.
Defined.

Lemma bulkExport_no_summary_witness :
  let w := example_world "Starting copy..." "" example_format in
  exists rows tr,
    @bulkExport example_host w 3 example_trusted_bcp "t" None []
    = (Ok (rows,
           {| d_formatFile := "/home/u/.bcp/1700000000000_42_4242_format.xml";
              d_exportFile := "/home/u/.bcp/1700000000000_42_4242_export.dat";
              rowCount := 0; stdout := Some "Starting copy..." |}), tr).
Proof.
  intros w.
  edestruct (@bulkExport_no_summary example_host w 3 example_trusted_bcp "t" None [])
    as (_ & Hok & _ & _).
  - vm_compute. reflexivity.
  - vm_compute. reflexivity.
  - vm_compute. reflexivity.
  - vm_compute. reflexivity.
  - eexists _, _. erewrite Hok.
    + vm_compute. reflexivity.
    + vm_compute. reflexivity.
    + vm_compute. reflexivity.
Defined.

Section ReadExportFacts.
Context {host : Host}.
Variable w : World.

(** C5: a buffer made of complete rows followed by the beginning of a row
    that lacks the terminator of one of its fields is read as the complete
    rows only, and the read succeeds; with no complete row the result is
    the empty list. *)
Theorem readExport_truncated fuel file format rows part r fm tr :
  readFile_answer w tr file (encoding format)
  = inr (encode_rows (fields format) rows
         +:+ encode_row (fields format) part +:+ r) ->
  Forall (well_terminated (fields format)) rows ->
  well_terminated (take (length part) (fields format)) part ->
  fields format !! length part = Some fm ->
  String.index 0 (terminator fm) r = None ->
  length rows < fuel ->
  readExport w fuel file format tr
  = (Ok (map (fun vs => decode_row (fields format) vs ∅) rows),
     tr ++ [Fs_readFile file (encoding format)])
  /\ (rows = [] ->
      readExport w fuel file format tr
      = (Ok [], tr ++ [Fs_readFile file (encoding format)])).
Proof.
  intros Hdata Hrows Hpart Hm Hr Hfuel.
  assert (Hrun : readExport w fuel file format tr
            = (Ok (map (fun vs => decode_row (fields format) vs ∅) rows),
               tr ++ [Fs_readFile file (encoding format)])).
  { unfold readExport, readFile, bind, of_answer. rewrite Hdata.
    unfold readExport_rows.
    pose proof (data_loop_truncated (fields format) part r fm Hpart Hm Hr
                  rows "" [] fuel Hrows Hfuel) as Hloop.
    rewrite append_nil_l in Hloop. simpl String.length in Hloop.
    rewrite Hloop. reflexivity. }
  split; [exact Hrun|]. intros ->. exact Hrun.
Qed.
End ReadExportFacts.

Lemma readExport_truncated_witness :
  let data := "42" +:+ TAB +:+ "1" +:+ LF +:+ "7" +:+ TAB +:+ "0" +:+ LF
              +:+ "9" +:+ TAB +:+ "1" in
  let w := example_world "" data example_format in
  @readExport example_host w 5 "/tmp/export.dat" example_format []
  = (Ok [ <["f1" := VBoolean true]> (<["f0" := VNumber (42%Z : @number example_host)]> ∅);
          <["f1" := VBoolean false]> (<["f0" := VNumber (7%Z : @number example_host)]> ∅) ],
     [Fs_readFile "/tmp/export.dat" "ucs2"]).
Proof.
  intros data w.
  destruct (@readExport_truncated example_host w 5 "/tmp/export.dat" example_format
              [["42"; "1"]; ["7"; "0"]] ["9"] "1"
              {| name := "f1"; type := "SQLBIT"; terminator := LF; inImport := false |}
              []) as [Hrun _].
  - reflexivity.
  - repeat constructor.
  - repeat constructor.
  - reflexivity.
  - reflexivity.
  - simpl. lia.
  - rewrite Hrun. reflexivity.
Defined.

(** The scenario of the design notes: two typed fields, two complete rows. *)
Example readExport_scenario :
  @readExport_rows example_host 3
     ("42" +:+ TAB +:+ "1" +:+ LF +:+ "7" +:+ TAB +:+ "0" +:+ LF) example_format
  = Some [ <["f1" := VBoolean true]> (<["f0" := VNumber (42%Z : @number example_host)]> ∅);
           <["f1" := VBoolean false]> (<["f0" := VNumber (7%Z : @number example_host)]> ∅) ].
Proof. vm_compute. reflexivity. Qed.

Lemma readExport_termination_witness :
  (exists rows, forall fuel,
      String.length ("42" +:+ TAB +:+ "1" +:+ LF) < fuel ->
      @readExport_rows example_host fuel ("42" +:+ TAB +:+ "1" +:+ LF) example_format
      = Some rows)
  /\ (forall fuel,
      @readExport_rows example_host fuel "x"
         {| filename := "f"; encoding := "ascii"; fields := [] |} = None).
Proof.
  destruct (@readExport_termination example_host) as [Hterm Hloop].
  split.
  - apply Hterm; [discriminate|]. repeat constructor; discriminate.
  - apply Hloop; [discriminate|]. left. reflexivity.
Defined.

(** ** prepareBulkInsert *)

Lemma array_indexOf_None arr x : array_indexOf arr x = None <-> ~ In x arr.
Proof.
  induction arr as [|y arr IH]; simpl; [tauto|].
  destruct (String.eqb_spec y x) as [->|Hne].
  - split; [discriminate | intros H; exfalso; apply H; now left].
  - destruct (array_indexOf arr x) eqn:E.
    + split; [discriminate|]. intros H. exfalso. apply H. right.
      destruct (in_dec string_dec x arr) as [Hin|Hnin]; [exact Hin|].
      apply IH in Hnin. discriminate Hnin.
    + split; [|reflexivity]. intros _ [Heq | Hin]; [congruence|].
      now apply IH in Hin.
Qed.

(** The loop over [columns] stops at the first column that no field name
    matches once both are lower-cased. *)
Lemma check_columns_missing names columns :
  Exists (fun c => ~ In (toLowerCase c) names) columns ->
  forall fs, exists pre c post,
    columns = pre ++ c :: post
    /\ ~ In (toLowerCase c) names
    /\ Forall (fun x => In (toLowerCase x) names) pre
    /\ check_columns names columns fs = inl c.
Proof.
  induction columns as [|c columns IH]; intros Hex fs; [inversion Hex|].
  simpl. destruct (array_indexOf names (toLowerCase c)) as [dex|] eqn:E.
  - assert (Hin : In (toLowerCase c) names).
    { destruct (in_dec string_dec (toLowerCase c) names) as [H|H]; [exact H|].
      apply array_indexOf_None in H. congruence. }
    inversion Hex as [? ? Hc | ? ? Hrest]; subst; [contradiction|].
    destruct (IH Hrest
                (alter (fun f => {| name := c; type := type f;
                                    terminator := terminator f; inImport := true |})
                       dex fs))
      as (pre & c0 & post & -> & Hc0 & Hpre & Hchk).
    exists (c :: pre), c0, post. repeat split; try assumption.
    now constructor.
  - exists [], c, columns. repeat split; [|constructor].
    now apply array_indexOf_None.
Qed.

Section PrepareFacts.
Context {host : Host}.
Variable w : World.

(** C1 (amended): once the directories exist and the format descriptor has
    been generated, a requested column that matches no field name makes the
    operation fail with an error naming the qualified table and the first
    such column.  The calls made by then are the directory creations, the
    format-generation command and the read of the descriptor; no import
    file handle has been built. *)
Theorem prepareBulkInsert_missing_column
        bcp table columns overrides tr tr1 tr2 format :
  let options := mergeOptions (prepare_defaults w bcp) overrides in
  let ff := js_String (prop options "formatFile") in
  let impf := js_String (prop options "importFile") in
  let fullTable := getQualifiedTable bcp table in
  let names := map (fun f => toLowerCase (name f)) (fields format) in
  ensureDirectories w [ff; impf] tr = (Ok tt, tr1) ->
  formatGenerate w bcp fullTable ff (getCommonArgs bcp false) tr1 = (Ok format, tr2) ->
  Exists (fun c => ~ In (toLowerCase c) names) columns ->
  exists pre c post evs,
    columns = pre ++ c :: post
    /\ ~ In (toLowerCase c) names
    /\ Forall (fun x => In (toLowerCase x) names) pre
    /\ prepareBulkInsert w bcp table columns overrides tr
       = (Failed {| message := fullTable +:+ " does not contain column " +:+ c |},
          tr ++ evs
          ++ [ChildProcess_exec (format_cmd bcp fullTable ff (getCommonArgs bcp false));
              FormatFile_fromFile ff])
    /\ Forall is_mkdirp evs.
Proof.
  intros options ff impf fullTable names H1 H2 Hex.
  destruct (check_columns_missing names columns Hex (fields format))
    as (pre & c & post & Hcols & Hc & Hpre & Hchk).
  destruct (emits_ensureDirectories w is_mkdirp [ff; impf]
              (fun d => ex_intro _ d eq_refl) _ _ _ H1) as (evs & Htr1 & Hevs).
  exists pre, c, post, evs. repeat split; try assumption.
  unfold prepareBulkInsert. fold options. fold ff. fold impf. fold fullTable.
  rewrite (bind_Ok _ _ _ _ _ H1), (bind_Ok _ _ _ _ _ H2).
  fold names. rewrite Hchk. unfold fail.
  rewrite (formatGenerate_Ok w _ _ _ _ _ _ _ H2), Htr1.
  now rewrite <- app_assoc.
Qed.
End PrepareFacts.

Lemma prepareBulkInsert_missing_column_witness :
  let w := example_world "" "" example_format in
  exists evs,
    @prepareBulkInsert example_host w example_trusted_bcp "t" ["F0"; "nope"; "f1"] None []
    = (Failed {| message := "[dbo].[t] does not contain column nope" |},
       [] ++ evs
       ++ [ChildProcess_exec
             (format_cmd example_trusted_bcp "[dbo].[t]"
                "/home/u/.bcp/1700000000000_42_4242_format.xml" [TStr "-w"; TStr "-T"]);
           FormatFile_fromFile "/home/u/.bcp/1700000000000_42_4242_format.xml"])
    /\ Forall is_mkdirp evs.
Proof.
  intros w.
  edestruct (@prepareBulkInsert_missing_column example_host w example_trusted_bcp "t"
               ["F0"; "nope"; "f1"] None [])
    as (pre & c & post & evs & Hcols & Hc & Hpre & Hrun & Hevs).
  - vm_compute. reflexivity.
  - vm_compute. reflexivity.
  - apply Exists_cons_tl, Exists_cons_hd. vm_compute.
    intros [H | [H | []]]; discriminate H.
  - exists evs. split; [|exact Hevs]. rewrite Hrun.
    destruct pre as [|p0 [|p1 pre]]; simpl in Hcols.
    + injection Hcols as <- _. exfalso. apply Hc. vm_compute. now left.
    + injection Hcols as _ <- _. reflexivity.
    + injection Hcols as _ _ Hrest. destruct pre as [|p2 pre]; simpl in Hrest.
      * injection Hrest as <- _. exfalso. apply Hc. vm_compute. right. now left.
      * injection Hrest as _ Hrest. destruct pre; discriminate Hrest.
Defined.

(** C1 as stated fails: when the missing column is reported, the
    directories have been created and the format-generation command, which
    writes the format file, has already been run. *)
Lemma prepareBulkInsert_fails_after_format :
  let w := example_world "" "" example_format in
  @prepareBulkInsert example_host w example_trusted_bcp "t" ["nope"] None []
  = (Failed {| message := "[dbo].[t] does not contain column nope" |},
     [Mkdirp "/home/u/.bcp";
      ChildProcess_exec
        ("bcp [dbo].[t] format nul -x -f "
         +:+ JSON_stringify "/home/u/.bcp/1700000000000_42_4242_format.xml"
         +:+ " -w -T");
      FormatFile_fromFile "/home/u/.bcp/1700000000000_42_4242_format.xml"]).
Proof. vm_compute. reflexivity. Qed.

(** * The summary-line pattern *)

Lemma rows_copied_exec_cons c s :
  rows_copied_exec (String c s) =
    let (ds, rest) := span_digits (String c s) in
    if negb (String.eqb ds "") && String.prefix " rows copied." rest
    then Some ds
    else rows_copied_exec s.
Proof. reflexivity. Qed.

Lemma span_digits_spec s :
  s = fst (span_digits s) +:+ snd (span_digits s)
  /\ all_digits (fst (span_digits s)) = true.
Proof.
  induction s as [|c s [IH1 IH2]]; [split; reflexivity|].
  simpl. destruct (is_digit c) eqn:Hc.
  - destruct (span_digits s) as [ds rest]. simpl in *.
    split; [now rewrite append_cons, <- IH1 | now rewrite Hc, IH2].
  - split; reflexivity.
Qed.

Lemma span_digits_append ds c rest :
  all_digits ds = true -> is_digit c = false ->
  span_digits (ds +:+ String c rest) = (ds, String c rest).
Proof.
  intros Hds Hc. induction ds as [|d ds IH].
  - rewrite append_nil_l. simpl. now rewrite Hc.
  - simpl in Hds. apply andb_prop in Hds as [Hd Hds].
    rewrite append_cons. simpl. rewrite Hd, (IH Hds). reflexivity.
Qed.

Lemma prefix_split t s : String.prefix t s = true -> exists post, s = t +:+ post.
Proof.
  revert s. induction t as [|a t IH]; intros s H; [now exists s|].
  destruct s as [|b s]; [discriminate H|].
  rewrite prefix_cons in H. destruct (ascii_dec a b) as [->|]; [|discriminate H].
  destruct (IH s H) as [post ->]. now exists post.
Qed.

(** A result of the pattern is a non-empty run of digits standing right
    before the words of the summary line. *)
Lemma rows_copied_exec_Some s ds :
  rows_copied_exec s = Some ds ->
  exists pre post,
    s = pre +:+ ds +:+ " rows copied." +:+ post
    /\ ds <> "" /\ all_digits ds = true.
Proof.
  induction s as [|c s IH]; intros H; [discriminate H|].
  rewrite rows_copied_exec_cons in H.
  destruct (span_digits_spec (String c s)) as [Hs Hd].
  destruct (span_digits (String c s)) as [ds0 rest]. simpl in Hs, Hd.
  destruct (negb (String.eqb ds0 "") && String.prefix " rows copied." rest) eqn:Hc.
  - injection H as <-. apply andb_prop in Hc as [Hne Hp].
    apply prefix_split in Hp as [post ->].
    exists "", post. rewrite append_nil_l. split; [exact Hs|]. split; [|exact Hd].
    intros ->. discriminate Hne.
  - destruct (IH H) as (pre & post & -> & Hne & Hdig).
    exists (String c pre), post. now rewrite append_cons.
Qed.

(** Every such occurrence makes the pattern match. *)
Lemma rows_copied_exec_match pre ds post :
  ds <> "" -> all_digits ds = true ->
  exists ds', rows_copied_exec (pre +:+ ds +:+ " rows copied." +:+ post) = Some ds'.
Proof.
  intros Hne Hd. induction pre as [|c pre IH].
  - rewrite append_nil_l. destruct ds as [|d ds]; [congruence|].
    rewrite append_cons, rows_copied_exec_cons, <- append_cons.
    change (" rows copied." +:+ post)
      with (String " "%char ("rows copied." +:+ post)).
    rewrite span_digits_append by (exact Hd || reflexivity).
    change (String " "%char ("rows copied." +:+ post))
      with (" rows copied." +:+ post).
    rewrite prefix_append. simpl. eauto.
  - rewrite append_cons, rows_copied_exec_cons.
    destruct (span_digits _) as [ds0 rest].
    destruct (negb (String.eqb ds0 "") && String.prefix " rows copied." rest);
      [eauto | exact IH].
Qed.

(** The pattern finds nothing exactly when the output holds no run of
    digits followed by the words of the summary line. *)
Lemma rows_copied_exec_None s :
  rows_copied_exec s = None <->
  ~ exists pre ds post,
      s = pre +:+ ds +:+ " rows copied." +:+ post
      /\ ds <> "" /\ all_digits ds = true.
Proof.
  split.
  - intros Hn (pre & ds & post & -> & Hne & Hd).
    destruct (rows_copied_exec_match pre ds post Hne Hd) as [ds' H]. congruence.
  - intros Hno. destruct (rows_copied_exec s) as [ds|] eqn:E; [|reflexivity].
    exfalso. apply Hno. apply rows_copied_exec_Some in E as (pre & post & H).
    now exists pre, ds, post.
Qed.

(** * Further properties of the argument builder *)

Lemma quoted_neq_dash s r : TStr (JSON_stringify s) <> TStr (String "-" r).
Proof. unfold JSON_stringify, dquote. discriminate. Qed.

Lemma Forall_not_In {A} (x : A) l : Forall (fun t => t <> x) l -> ~ In x l.
Proof.
  intros Hall Hin. rewrite List.Forall_forall in Hall. exact (Hall _ Hin eq_refl).
Qed.

Ltac absent_tokens :=
  repeat (apply List.Forall_cons;
          [ first [ discriminate | apply quoted_neq_dash ] | ]);
  apply List.Forall_nil.

Ltac absent_step :=
  apply Forall_push_when;
  [ | let Hc := fresh in
      intros Hc;
      first [ discriminate Hc
            | rewrite andb_false_r in Hc; discriminate Hc
            | congruence
            | unfold terminator_tokens;
              destruct (starts_with_dash_or_slash _); absent_tokens
            | absent_tokens ] ].

Ltac absent_chain :=
  apply Forall_not_In; unfold getCommonArgs; cbv zeta;
  destruct (unicode _), (trusted _); repeat absent_step; apply List.Forall_nil.

(** X1: a numeric option that is unset or zero leaves no trace of its flag;
    one that is set to a non-zero number is pushed as the flag followed by
    the number as a token of its own. *)
Theorem getCommonArgs_numeric bcp om flag opt :
  In (flag, opt) [("-a", packetSize bcp); ("-b", batchSize bcp);
                  ("-F", firstRow bcp); ("-L", lastRow bcp);
                  ("-m", maxErrors bcp)] ->
  if truthy_num opt
  then exists pre post,
         getCommonArgs bcp om = pre ++ TStr flag :: TNum (num_of opt) :: post
  else ~ In (TStr flag) (getCommonArgs bcp om).
Proof.
  intros Hin. simpl in Hin.
  destruct Hin as [H | [H | [H | [H | [H | []]]]]]; injection H as <- <-.
  - destruct (truthy_num (packetSize bcp)) eqn:E; [|absent_chain].
    unfold getCommonArgs; cbv zeta. rewrite E. destruct (trusted bcp); find_pair.
  - destruct (truthy_num (batchSize bcp)) eqn:E; [|absent_chain].
    unfold getCommonArgs; cbv zeta. rewrite E. destruct (trusted bcp); find_pair.
  - destruct (truthy_num (firstRow bcp)) eqn:E; [|absent_chain].
    unfold getCommonArgs; cbv zeta. rewrite E. destruct (trusted bcp); find_pair.
  - destruct (truthy_num (lastRow bcp)) eqn:E; [|absent_chain].
    unfold getCommonArgs; cbv zeta. rewrite E. destruct (trusted bcp); find_pair.
  - destruct (truthy_num (maxErrors bcp)) eqn:E; [|absent_chain].
    unfold getCommonArgs; cbv zeta. rewrite E. destruct (trusted bcp); find_pair.
Qed.

Lemma getCommonArgs_numeric_witness :
  (exists pre post,
      getCommonArgs (Bcp_new "/home/u/.bcp"
                       (example_options None None (Some 1000%Z) None None None)) true
      = pre ++ TStr "-b" :: TNum 1000 :: post)
  /\ ~ In (TStr "-b")
         (getCommonArgs (Bcp_new "/home/u/.bcp"
                           (example_options None None (Some 0%Z) None None None)) true).
Proof.
  split.
  - exact (getCommonArgs_numeric
             (Bcp_new "/home/u/.bcp" (example_options None None (Some 1000%Z) None None None))
             true "-b" (Some 1000%Z) (or_intror (or_introl eq_refl))).
  - exact (getCommonArgs_numeric
             (Bcp_new "/home/u/.bcp" (example_options None None (Some 0%Z) None None None))
             true "-b" (Some 0%Z) (or_intror (or_introl eq_refl))).
Defined.

(** X2: the encoding and code-page flags belong to format generation and
    export only.  Built with [omitFormat] set, the list holds none of [-w],
    [-c], [-C]; otherwise it holds exactly one of [-w] and [-c], chosen by
    [unicode], and [-C] with the quoted code page exactly when one is set. *)
Theorem getCommonArgs_format_flags bcp :
  (~ In (TStr "-w") (getCommonArgs bcp true)
   /\ ~ In (TStr "-c") (getCommonArgs bcp true)
   /\ ~ In (TStr "-C") (getCommonArgs bcp true))
  /\ (if unicode bcp
      then In (TStr "-w") (getCommonArgs bcp false)
           /\ ~ In (TStr "-c") (getCommonArgs bcp false)
      else In (TStr "-c") (getCommonArgs bcp false)
           /\ ~ In (TStr "-w") (getCommonArgs bcp false))
  /\ (if truthy_str (codePage bcp)
      then exists pre post,
             getCommonArgs bcp false
             = pre ++ TStr "-C" :: TStr (JSON_stringify (str_of (codePage bcp))) :: post
      else ~ In (TStr "-C") (getCommonArgs bcp false)).
Proof.
  split; [|split].
  - split; [|split]; absent_chain.
  - destruct (unicode bcp) eqn:Eu; split.
    + unfold getCommonArgs; cbv zeta. rewrite Eu. simpl negb.
      destruct (trusted bcp); find_token.
    + apply Forall_not_In; unfold getCommonArgs; cbv zeta. rewrite Eu.
      destruct (trusted bcp); repeat absent_step; apply List.Forall_nil.
    + unfold getCommonArgs; cbv zeta. rewrite Eu. simpl negb.
      destruct (trusted bcp); find_token.
    + apply Forall_not_In; unfold getCommonArgs; cbv zeta. rewrite Eu.
      destruct (trusted bcp); repeat absent_step; apply List.Forall_nil.
  - destruct (truthy_str (codePage bcp)) eqn:E.
    + unfold getCommonArgs; cbv zeta. rewrite E. simpl negb. simpl andb.
      destruct (trusted bcp); find_pair.
    + apply Forall_not_In; unfold getCommonArgs; cbv zeta. rewrite E. simpl andb.
      destruct (unicode bcp), (trusted bcp); repeat absent_step; apply List.Forall_nil.
Qed.

(** X3: without a trusted connection the list never holds [-T]; a non-empty
    user is pushed as [-U] followed by the quoted user, a non-empty password
    as [-P] followed by the quoted password, and an empty or missing one
    leaves no flag. *)
Theorem getCommonArgs_credentials bcp om :
  trusted bcp = false ->
  ~ In (TStr "-T") (getCommonArgs bcp om)
  /\ (if truthy_str (user bcp)
      then exists pre post,
             getCommonArgs bcp om
             = pre ++ TStr "-U" :: TStr (JSON_stringify (str_of (user bcp))) :: post
      else ~ In (TStr "-U") (getCommonArgs bcp om))
  /\ (if truthy_str (password bcp)
      then exists pre post,
             getCommonArgs bcp om
             = pre ++ TStr "-P" :: TStr (JSON_stringify (str_of (password bcp))) :: post
      else ~ In (TStr "-P") (getCommonArgs bcp om)).
Proof.
  intros Ht. split; [|split].
  - apply Forall_not_In; unfold getCommonArgs; cbv zeta. rewrite Ht.
    destruct (unicode bcp); repeat absent_step; apply List.Forall_nil.
  - destruct (truthy_str (user bcp)) eqn:E.
    + unfold getCommonArgs; cbv zeta. rewrite Ht, E. find_pair.
    + apply Forall_not_In; unfold getCommonArgs; cbv zeta. rewrite Ht.
      destruct (unicode bcp); repeat absent_step; apply List.Forall_nil.
  - destruct (truthy_str (password bcp)) eqn:E.
    + unfold getCommonArgs; cbv zeta. rewrite Ht, E. find_pair.
    + apply Forall_not_In; unfold getCommonArgs; cbv zeta. rewrite Ht.
      destruct (unicode bcp); repeat absent_step; apply List.Forall_nil.
Qed.

Lemma getCommonArgs_credentials_witness :
  let bcp := example_bcp None None (Some "sa") (Some "") None None false false in
  ~ In (TStr "-T") (getCommonArgs bcp true)
  /\ (exists pre post,
        getCommonArgs bcp true = pre ++ TStr "-U" :: TStr (JSON_stringify "sa") :: post)
  /\ ~ In (TStr "-P") (getCommonArgs bcp true).
Proof.
  intros bcp. exact (getCommonArgs_credentials bcp true eq_refl).
Defined.

(** X4: the batch size and the rows-per-batch hint are not checked against
    each other: when both are set, both are emitted. *)
Theorem getCommonArgs_batch_and_hint bcp om :
  truthy_num (batchSize bcp) = true ->
  truthy_num (rowsPerBatch bcp) = true ->
  (exists pre post,
      getCommonArgs bcp om
      = pre ++ TStr "-b" :: TNum (num_of (batchSize bcp)) :: post)
  /\ In ("ROWS_PER_BATCH=" +:+ pretty (num_of (rowsPerBatch bcp))) (getHints bcp)
  /\ exists pre,
       getCommonArgs bcp om
       = pre ++ [TStr "-h"; TStr (JSON_stringify (join "," (getHints bcp)))].
Proof.
  intros Hb Hr. split; [|split].
  - unfold getCommonArgs; cbv zeta. rewrite Hb. destruct (trusted bcp); find_pair.
  - unfold getHints; cbv zeta. rewrite Hr. find_token.
  - destruct (getCommonArgs_shape bcp om) as (pre & _ & ->).
    assert (Hne : getHints bcp <> []).
    { rewrite getHints_order, Hr. intros H.
      apply app_eq_nil in H as [_ H]. discriminate H. }
    destruct (getHints bcp) as [|h hs]; [congruence|]. simpl. eauto.
Qed.

Lemma getCommonArgs_batch_and_hint_witness :
  let bcp := Bcp_new "/home/u/.bcp"
               (example_options None None (Some 1000%Z) (Some 5000%Z) None None) in
  (exists pre post, getCommonArgs bcp true = pre ++ TStr "-b" :: TNum 1000 :: post)
  /\ In "ROWS_PER_BATCH=5000" (getHints bcp).
Proof.
  intros bcp.
  destruct (getCommonArgs_batch_and_hint bcp true eq_refl eq_refl) as (H1 & H2 & _).
  split; [exact H1 | exact H2].
Defined.

(** * Further properties of option merging *)

(** X5: merging never adds or removes a key of the defaults; a key of the
    defaults that the caller gave takes the caller's value, even a falsy
    one; merging the same overrides again changes nothing, and overrides
    with no key of the defaults leave the defaults as they are. *)
Theorem mergeOptions_keys (defaults : JSObject) (overrides : option JSObject) :
  dom (mergeOptions defaults overrides) = dom defaults
  /\ (forall ov k v, overrides = Some ov -> ov !! k = Some v ->
        is_Some (defaults !! k) -> mergeOptions defaults overrides !! k = Some v)
  /\ mergeOptions (mergeOptions defaults overrides) overrides
     = mergeOptions defaults overrides
  /\ (forall ov, overrides = Some ov ->
        (forall k, is_Some (defaults !! k) -> ov !! k = None) ->
        mergeOptions defaults overrides = defaults).
Proof.
  split; [|split; [|split]].
  - apply set_eq. intros k. rewrite !elem_of_dom, mergeOptions_lookup.
    destruct (defaults !! k); split; intros [x Hx]; try discriminate Hx; eauto.
  - intros ov k v -> Hv [d Hd]. now rewrite mergeOptions_lookup, Hd, Hv.
  - apply map_eq. intros k. rewrite !mergeOptions_lookup.
    destruct (defaults !! k) as [d|]; [|reflexivity].
    destruct overrides as [ov|]; [|reflexivity].
    destruct (ov !! k); reflexivity.
  - intros ov -> Hnone. apply map_eq. intros k. rewrite mergeOptions_lookup.
    destruct (defaults !! k) as [d|] eqn:Hd; [|reflexivity].
    now rewrite (Hnone k) by (rewrite Hd; eauto).
Qed.

(** * Further properties of the field codec *)

Section CodecSentinels.
Context {host : Host}.

(** X6: whatever the type of the field, the codec returns null exactly for
    the empty string and the empty string exactly for the single NUL. *)
Theorem fieldDeserialize_sentinels (value : string) (field : Field) :
  (fieldDeserialize value field = VNull <-> value = "")
  /\ (fieldDeserialize value field = VString "" <-> value = NUL).
Proof.
  unfold fieldDeserialize.
  destruct (String.eqb_spec value "") as [->|Hne].
  { split; split; try reflexivity; discriminate. }
  destruct (String.eqb_spec value NUL) as [->|Hnul].
  { split; split; try reflexivity; discriminate. }
  split; split; intros H; try contradiction.
  - destruct (typesMap !! type field) as [[]|]; discriminate H.
  - destruct (typesMap !! type field) as [[]|]; try discriminate H.
    injection H as ->. contradiction.
Qed.
End CodecSentinels.

Lemma mergeOptions_keys_witness :
  let ov : JSObject := <["read" := JNum 0]> (<["exportFile" := JStr "/x"]> ∅) in
  mergeOptions bulkExport_defaults (Some ov) !! "read" = Some (JNum 0).
Proof.
  intros ov.
  destruct (mergeOptions_keys bulkExport_defaults (Some ov)) as (_ & Hov & _).
  apply (Hov ov "read" (JNum 0)); [reflexivity | reflexivity |].
  exists (JBool true). reflexivity.
Defined.

(** * Further properties of the reader *)

Section ReaderMore.
Context {host : Host}.
Variable w : World.

Lemma data_loop_complete fs m fm :
  fs !! m = Some fm -> terminator fm <> "" ->
  forall rows pre acc fuel,
    Forall (well_terminated fs) rows ->
    length rows < fuel ->
    data_loop fuel (pre +:+ encode_rows fs rows) fs (String.length pre) acc
    = Some (acc ++ map (fun vs => decode_row fs vs ∅) rows).
Proof.
  intros Hm Hne. induction rows as [|vs rows IH]; intros pre acc fuel Hrows Hfuel.
  - destruct fuel as [|fuel]; [simpl in Hfuel; lia|].
    simpl encode_rows. simpl data_loop.
    replace (String.length pre <? String.length (pre +:+ "")) with false
      by (symmetry; apply Nat.ltb_ge; rewrite length_append; simpl; lia).
    now rewrite app_nil_r.
  - destruct fuel as [|fuel]; [simpl in Hfuel; lia|].
    apply Forall_cons_1 in Hrows as [Hvs Hrows].
    simpl encode_rows. simpl data_loop.
    pose proof (encode_row_length fs vs _ fm Hvs Hm) as Hlen.
    assert (0 < String.length (terminator fm))
      by (destruct (terminator fm); [congruence | simpl; lia]).
    replace (String.length pre <? _) with true
      by (symmetry; apply Nat.ltb_lt; rewrite !length_append; lia).
    rewrite (read_row_complete fs vs Hvs pre _ ∅).
    specialize (IH (pre +:+ encode_row fs vs) (acc ++ [decode_row fs vs ∅]) fuel Hrows).
    rewrite append_assoc, length_append in IH. rewrite IH by (simpl in Hfuel; lia).
    simpl map. now rewrite <- app_assoc.
Qed.

(** X7: a file that holds well-terminated rows and nothing else is read back
    as exactly these rows, in order, provided some field has a non-empty
    terminator. *)
Theorem readExport_roundtrip fuel file format rows tr :
  readFile_answer w tr file (encoding format)
  = inr (encode_rows (fields format) rows) ->
  Exists (fun f => terminator f <> "") (fields format) ->
  Forall (well_terminated (fields format)) rows ->
  length rows < fuel ->
  readExport w fuel file format tr
  = (Ok (map (fun vs => decode_row (fields format) vs ∅) rows),
     tr ++ [Fs_readFile file (encoding format)]).
Proof.
  intros Hdata Hex Hrows Hfuel.
  apply List.Exists_exists in Hex as (fm & Hin & Hne).
  apply list_elem_of_In, list_elem_of_lookup in Hin as [m Hm].
  unfold readExport, readFile, bind, of_answer. rewrite Hdata.
  unfold readExport_rows.
  pose proof (data_loop_complete (fields format) m fm Hm Hne rows "" [] fuel
                Hrows Hfuel) as Hloop.
  rewrite append_nil_l in Hloop. simpl String.length in Hloop.
  rewrite Hloop. reflexivity.
Qed.

(** X8: the reader has no error of its own.  It fails exactly when
    [Fs.readFile] fails, with that error; whatever the content of the file,
    a read that succeeds is never turned into a failure. *)
Theorem readExport_failure fuel file format tr e tr' :
  readExport w fuel file format tr = (Failed e, tr')
  <-> readFile_answer w tr file (encoding format) = inl e
      /\ tr' = tr ++ [Fs_readFile file (encoding format)].
Proof.
  unfold readExport, readFile, bind, of_answer, ret.
  destruct (readFile_answer w tr file (encoding format)) as [e0|data].
  - split.
    + intros H. injection H as -> <-. split; reflexivity.
    + intros [H ->]. injection H as ->. reflexivity.
  - split.
    + destruct (readExport_rows fuel data format); discriminate.
    + intros [H _]. discriminate H.
Qed.




Lemma data_loop_count data fs :
  Exists (fun f => terminator f <> "") fs ->
  forall fuel i acc rows,
    data_loop fuel data fs i acc = Some rows -> i <= String.length data ->
    length rows + i <= length acc + String.length data.
Proof.
  intros Hex. induction fuel as [|fuel IH]; intros i acc rows H Hi; [discriminate H|].
  simpl in H. destruct (i <? String.length data); [|injection H as <-; lia].
  destruct (read_row data fs i ∅) as [[o i']|] eqn:Hrow; [|injection H as <-; lia].
  destruct (read_row_advance _ _ _ _ _ _ Hrow Hi) as (H1 & H2 & H3).
  specialize (H3 Hex). apply IH in H; [|exact H2].
  rewrite length_app in H. simpl in H. lia.
Qed.

(** X10: when some field has a non-empty terminator, every row uses up at
    least one character: the reader returns at most as many rows as the
    buffer has characters. *)
Theorem readExport_rows_count fuel data format rows :
  Exists (fun f => terminator f <> "") (fields format) ->
  readExport_rows fuel data format = Some rows ->
  length rows <= String.length data.
Proof.
  intros Hex H. unfold readExport_rows in H.
  apply (data_loop_count data _ Hex) in H; simpl in *; lia.
Qed.
End ReaderMore.

Lemma readExport_roundtrip_witness :
  let data := "42" +:+ TAB +:+ "1" +:+ LF +:+ NUL +:+ TAB +:+ LF in
  let w := example_world "" data example_format in
  @readExport example_host w 5 "/tmp/export.dat" example_format []
  = (Ok [ <["f1" := VBoolean true]> (<["f0" := VNumber (42%Z : @number example_host)]> ∅);
          <["f1" := VNull]> (<["f0" := VString ""]> ∅) ],
     [Fs_readFile "/tmp/export.dat" "ucs2"]).
Proof.
  intros data w.
  rewrite (@readExport_roundtrip example_host w 5 "/tmp/export.dat" example_format
             [["42"; "1"]; [NUL; ""]] []).
  - reflexivity.
  - reflexivity.
  - apply Exists_cons_hd. discriminate.
  - repeat constructor.
  - simpl. lia.
Defined.

Lemma readExport_rows_count_witness :
  exists rows,
    @readExport_rows example_host 9 ("42" +:+ TAB +:+ "1" +:+ LF) example_format
    = Some rows
    /\ length rows <= 5.
Proof.
  destruct (@readExport_rows example_host 9 ("42" +:+ TAB +:+ "1" +:+ LF) example_format)
    as [rows|] eqn:E; [|vm_compute in E; discriminate E].
  exists rows. split; [reflexivity|].
  apply (@readExport_rows_count example_host 9 _ example_format rows) in E;
    [exact E|]. apply Exists_cons_hd. discriminate.
Defined.


(** * Decimal numerals *)













(** * Further properties of the pipelines *)



Section TempFile.
Context {host : Host}.

End TempFile.



Section PipelineMore.
Context {host : Host}.
Variable w : World.

Lemma parallel_mkdirp_trace dirs tr :
  snd (parallel (map (mkdirp w) dirs) tr) = tr ++ map Mkdirp dirs.
Proof.
  revert tr. induction dirs as [|d dirs IH]; intros tr; simpl.
  - now rewrite app_nil_r.
  - unfold mkdirp at 1, of_status.
    destruct (mkdirp_answer w tr d).
    + specialize (IH (tr ++ [Mkdirp d])).
      destruct (parallel (map (mkdirp w) dirs) (tr ++ [Mkdirp d])) as [[[]|e'|] tr''];
        simpl in *; rewrite IH; now rewrite <- app_assoc.
    + rewrite IH. now rewrite <- app_assoc.
Qed.

Lemma dedupe_dirs (dir : string -> string) files :
  forall acc,
    NoDup acc ->
    NoDup (fold_left (fun dirs f =>
                        match array_indexOf dirs (dir f) with
                        | None => dirs ++ [dir f]
                        | Some _ => dirs
                        end) files acc)
    /\ forall d,
        In d (fold_left (fun dirs f =>
                           match array_indexOf dirs (dir f) with
                           | None => dirs ++ [dir f]
                           | Some _ => dirs
                           end) files acc)
        <-> In d acc \/ exists f, In f files /\ d = dir f.
Proof.
  induction files as [|f files IH]; intros acc Hnd; simpl.
  - split; [exact Hnd|]. intros d. split; [tauto|]. intros [H | (f & [] & _)]. exact H.
  - destruct (array_indexOf acc (dir f)) as [n|] eqn:E.
    + destruct (IH acc Hnd) as [H1 H2]. split; [exact H1|].
      intros d. rewrite H2. split.
      * intros [H | (g & Hg & ->)]; [now left | right; eauto].
      * intros [H | (g & [<- | Hg] & ->)]; [now left | | right; eauto].
        left. destruct (in_dec string_dec (dir f) acc) as [Hin|Hnin]; [exact Hin|].
        apply array_indexOf_None in Hnin. congruence.
    + apply array_indexOf_None in E.
      assert (Hnd' : NoDup (acc ++ [dir f])).
      { apply NoDup_app. split; [exact Hnd|]. split.
        - intros x Hx Hx'. apply list_elem_of_In in Hx.
          apply list_elem_of_In in Hx'. simpl in Hx'. destruct Hx' as [<- | []].
          contradiction.
        - apply NoDup_singleton. }
      destruct (IH _ Hnd') as [H1 H2]. split; [exact H1|].
      intros d. rewrite H2. rewrite in_app_iff. simpl. split.
      * intros [[H | [<- | []]] | (g & Hg & ->)]; [now left | right; eauto | right; eauto].
      * intros [H | (g & [<- | Hg] & ->)]; [left; now left | left; right; now left | right; eauto].
Qed.

(** X13: [ensureDirectories] asks for each distinct parent directory of its
    arguments exactly once, and for nothing else, whatever the answers. *)
Theorem ensureDirectories_once files tr :
  exists dirs,
    snd (ensureDirectories w files tr) = tr ++ map Mkdirp dirs
    /\ NoDup dirs
    /\ forall d, In d dirs
                 <-> exists f, In f files /\ d = Path_dirname (Path_resolve (cwd w) f).
Proof.
  unfold ensureDirectories.
  destruct (dedupe_dirs (fun f => Path_dirname (Path_resolve (cwd w) f)) files []
              NoDup_nil_2) as [Hnd Hin].
  eexists. split; [apply parallel_mkdirp_trace|]. split; [exact Hnd|].
  intros d. rewrite Hin. simpl. tauto.
Qed.
End PipelineMore.

Section ExportMore.
Context {host : Host}.
Variable w : World.

Lemma no_unlink_in evs f : Forall not_unlink evs -> ~ In (Fs_unlink f) evs.
Proof.
  intros Hall Hin. rewrite List.Forall_forall in Hall. exact (Hall _ Hin f eq_refl).
Qed.

Lemma emits_read_results fuel options ef format :
  emits not_unlink (read_results w fuel options ef format).
Proof.
  unfold read_results. destruct (truthy _); [|apply emits_ret].
  apply emits_bind; [apply emits_readExport, not_unlink_readFile|].
  intros rows. apply emits_ret.
Qed.

(** X14: the export deletes nothing unless every earlier step succeeded.  If
    a run makes an unlink call at all, then the directories were created,
    the descriptor was generated, the export command succeeded and the
    read-back (when asked for) succeeded, and the run ends with the two
    unlink calls; a failure at any earlier step leaves both files. *)
Theorem bulkExport_unlink_after_success fuel bcp table overrides tr o evs f :
  let options := bulkExport_options overrides in
  let ff := bulkExport_formatFile w bcp options in
  let ef := bulkExport_exportFile w bcp options in
  let common := getCommonArgs bcp false in
  let qt := getQualifiedTable bcp table in
  bulkExport w fuel bcp table overrides tr = (o, tr ++ evs) ->
  In (Fs_unlink f) evs ->
  exists tr1 format tr2 out tr3 rows tr4,
    ensureDirectories w [ff; ef] tr = (Ok tt, tr1)
    /\ formatGenerate w bcp qt ff common tr1 = (Ok format, tr2)
    /\ child_exec w (export_cmd bcp qt ef common) tr2 = (Ok out, tr3)
    /\ read_results w fuel options ef format tr3 = (Ok rows, tr4)
    /\ tr ++ evs = tr4 ++ [Fs_unlink ff; Fs_unlink ef].
Proof.
  intros options ff ef common qt Hrun Hin.
  unfold bulkExport in Hrun. fold options in Hrun. fold ff in Hrun. fold ef in Hrun.
  fold common in Hrun. fold qt in Hrun. unfold bind at 1 in Hrun.
  destruct (ensureDirectories w [ff; ef] tr) as [[[]|e|] tr1] eqn:E1.
  2,3: exfalso; injection Hrun as _ Htr;
       destruct (emits_ensureDirectories w not_unlink _ not_unlink_Mkdirp _ _ _ E1)
         as (ev1 & -> & H1);
       apply app_inv_head in Htr; subst ev1; exact (no_unlink_in _ f H1 Hin).
  destruct (emits_ensureDirectories w not_unlink _ not_unlink_Mkdirp _ _ _ E1)
    as (ev1 & -> & H1).
  unfold bind at 1 in Hrun.
  destruct (formatGenerate w bcp qt ff common (tr ++ ev1)) as [[format|e|] tr2] eqn:E2.
  2,3: exfalso; injection Hrun as _ Htr;
       destruct (emits_formatGenerate w not_unlink _ _ _ _ not_unlink_exec
                   not_unlink_fromFile _ _ _ E2) as (ev2 & -> & H2);
       rewrite <- app_assoc in Htr; apply app_inv_head in Htr; subst evs;
       apply in_app_or in Hin as [Hin | Hin];
       [exact (no_unlink_in _ f H1 Hin) | exact (no_unlink_in _ f H2 Hin)].
  destruct (emits_formatGenerate w not_unlink _ _ _ _ not_unlink_exec
              not_unlink_fromFile _ _ _ E2) as (ev2 & -> & H2).
  unfold bind at 1 in Hrun.
  destruct (child_exec w (export_cmd bcp qt ef common) ((tr ++ ev1) ++ ev2))
    as [[out|e|] tr3] eqn:E3.
  2,3: exfalso; injection Hrun as _ Htr;
       destruct (emits_of_answer not_unlink _ _ (not_unlink_exec _) _ _ _ E3)
         as (ev3 & -> & H3);
       rewrite <- !app_assoc in Htr; apply app_inv_head in Htr; subst evs;
       repeat (apply in_app_or in Hin as [Hin | Hin]);
       [exact (no_unlink_in _ f H1 Hin) | exact (no_unlink_in _ f H2 Hin)
        | exact (no_unlink_in _ f H3 Hin)].
  destruct (emits_of_answer not_unlink _ _ (not_unlink_exec _) _ _ _ E3)
    as (ev3 & -> & H3).
  unfold bind at 1 in Hrun.
  destruct (read_results w fuel options ef format (((tr ++ ev1) ++ ev2) ++ ev3))
    as [[rows|e|] tr4] eqn:E4.
  2,3: exfalso; injection Hrun as _ Htr;
       destruct (emits_read_results _ _ _ _ _ _ _ E4) as (ev4 & -> & H4);
       rewrite <- !app_assoc in Htr; apply app_inv_head in Htr; subst evs;
       repeat (apply in_app_or in Hin as [Hin | Hin]);
       [exact (no_unlink_in _ f H1 Hin) | exact (no_unlink_in _ f H2 Hin)
        | exact (no_unlink_in _ f H3 Hin) | exact (no_unlink_in _ f H4 Hin)].
  destruct (emits_read_results _ _ _ _ _ _ _ E4) as (ev4 & Htr4 & H4).
  exists (tr ++ ev1), format, ((tr ++ ev1) ++ ev2), out, (((tr ++ ev1) ++ ev2) ++ ev3),
    rows, tr4.
  repeat split; try assumption.
  unfold bind in Hrun.
  destruct (cleanup w options ff ef tr4) as [oc tr5] eqn:E5.
  assert (Htr5 : tr ++ evs = tr5)
    by (destruct oc as [[]|e|]; now injection Hrun as _ <-).
  rewrite Htr5. unfold cleanup in E5.
  destruct (truthy (prop options "keepFiles")) eqn:Hk.
  - exfalso. injection E5 as _ <-. rewrite Htr4 in Htr5.
    rewrite <- !app_assoc in Htr5. apply app_inv_head in Htr5. subst evs.
    repeat (apply in_app_or in Hin as [Hin | Hin]);
      [exact (no_unlink_in _ f H1 Hin) | exact (no_unlink_in _ f H2 Hin)
       | exact (no_unlink_in _ f H3 Hin) | exact (no_unlink_in _ f H4 Hin)].
  - apply (cleanup_unlinks w options ff ef tr4 oc tr5 Hk).
    unfold cleanup. now rewrite Hk.
Qed.
End ExportMore.

Lemma bulkExport_unlink_after_success_witness :
  let w := example_world "" "" example_format in
  exists tr4,
    snd (@bulkExport example_host w 3 example_trusted_bcp "t" None [])
    = tr4 ++ [Fs_unlink "/home/u/.bcp/1700000000000_42_4242_format.xml";
              Fs_unlink "/home/u/.bcp/1700000000000_42_4242_export.dat"].
Proof.
  intros w.
  destruct (@bulkExport example_host w 3 example_trusted_bcp "t" None [])
    as [o tr'] eqn:E.
  destruct (@bulkExport_unlink_after_success example_host w 3 example_trusted_bcp "t"
              None [] o tr' "/home/u/.bcp/1700000000000_42_4242_format.xml")
    as (tr1 & format & tr2 & out & tr3 & rows & tr4 & _ & _ & _ & _ & Htr).
  - exact E.
  - vm_compute in E. injection E as _ <-. simpl. tauto.
  - exists tr4. exact Htr.
Defined.

Section ExportNoRead.
Context {host : Host}.
Variable w : World.

(** X15: with [read] set to a falsy value the export never opens the export
    file, and a run that succeeds hands back no rows ([null]) next to the
    details. *)
Theorem bulkExport_no_read fuel bcp table (ov : JSObject) v tr o tr' :
  ov !! "read" = Some v -> truthy v = false ->
  bulkExport w fuel bcp table (Some ov) tr = (o, tr') ->
  (exists evs, tr' = tr ++ evs /\ Forall not_readFile evs)
  /\ (forall rows d, o = Ok (rows, d) -> rows = None).
Proof.
  intros Hv Hf Hrun.
  assert (Hread : truthy (prop (bulkExport_options (Some ov)) "read") = false)
    by (rewrite bulkExport_options_read, Hv; exact Hf).
  assert (Hkeep : truthy (prop (bulkExport_options (Some ov)) "keepFiles") = true)
    by (rewrite bulkExport_options_keepFiles; [reflexivity | exact Hread]).
  split.
  - revert Hrun. generalize tr o tr'. change (emits not_readFile
      (bulkExport w fuel bcp table (Some ov))).
    unfold bulkExport.
    apply emits_bind;
      [apply emits_ensureDirectories; intros d f enc; discriminate|]. intros _.
    apply emits_bind;
      [apply emits_formatGenerate; intros c f enc; discriminate|]. intros format.
    apply emits_bind; [apply emits_of_answer; intros f enc; discriminate|]. intros out.
    apply emits_bind; [unfold read_results; rewrite Hread; apply emits_ret|].
    intros rows. apply emits_bind; [|intros _; apply emits_ret].
    unfold cleanup. rewrite Hkeep. apply emits_ret.
  - intros rows d ->. unfold bulkExport in Hrun.
    apply bind_Ok_inv in Hrun as (_ & tr1 & _ & Hrun).
    apply bind_Ok_inv in Hrun as (format & tr2 & _ & Hrun).
    apply bind_Ok_inv in Hrun as (out & tr3 & _ & Hrun).
    apply bind_Ok_inv in Hrun as (rows' & tr4 & Hr & Hrun).
    apply bind_Ok_inv in Hrun as (_ & tr5 & _ & Hrun).
    injection Hrun as <- _ _. unfold read_results in Hr. rewrite Hread in Hr.
    now injection Hr as <- _.
Qed.
End ExportNoRead.

Lemma bulkExport_no_read_witness :
  let w := example_world "" "42" example_format in
  let ov : JSObject := <["read" := JBool false]> ∅ in
  exists rows d tr',
    @bulkExport example_host w 3 example_trusted_bcp "t" (Some ov) [] = (Ok (rows, d), tr')
    /\ rows = None.
Proof.
  intros w ov.
  destruct (@bulkExport example_host w 3 example_trusted_bcp "t" (Some ov) [])
    as [[[rows d]|e|] tr'] eqn:E; try (vm_compute in E; discriminate E).
  exists rows, d, tr'. split; [reflexivity|].
  destruct (@bulkExport_no_read example_host w 3 example_trusted_bcp "t" ov
              (JBool false) [] _ tr' eq_refl eq_refl E) as [_ Hrows].
  exact (Hrows rows d eq_refl).
Defined.

(** * bulkInsert *)

Section InsertFacts.
Variable w : World.

(** X16: [bulkInsert] runs the tool once, with the arguments built for a
    supplied format file.  A failed import is reported as it is and leaves
    both files; after a successful import the format file and the import
    file are unlinked, in this order, unless [keepFiles] is truthy, and the
    operation then succeeds exactly when both unlinks do. *)
Theorem bulkInsert_cleanup bcp importFilename format table overrides tr :
  let cmd := insert_cmd bcp (getQualifiedTable bcp table) importFilename format
               (getCommonArgs bcp true) in
  let keep := truthy (prop (mergeOptions bulkInsert_defaults overrides) "keepFiles") in
  (forall e, exec_answer w tr cmd = inl e ->
     bulkInsert w bcp importFilename format table overrides tr
     = (Failed e, tr ++ [ChildProcess_exec cmd]))
  /\ (forall out, exec_answer w tr cmd = inr out -> keep = true ->
     bulkInsert w bcp importFilename format table overrides tr
     = (Ok tt, tr ++ [ChildProcess_exec cmd]))
  /\ (forall out, exec_answer w tr cmd = inr out -> keep = false ->
     snd (bulkInsert w bcp importFilename format table overrides tr)
     = tr ++ [ChildProcess_exec cmd; Fs_unlink (filename format);
              Fs_unlink importFilename]
     /\ (fst (bulkInsert w bcp importFilename format table overrides tr) = Ok tt
         <-> unlink_answer w (tr ++ [ChildProcess_exec cmd]) (filename format) = None
             /\ unlink_answer w (tr ++ [ChildProcess_exec cmd; Fs_unlink (filename format)])
                  importFilename = None)).
Proof.
  intros cmd keep. unfold bulkInsert. fold cmd. fold keep.
  unfold bind, child_exec, of_answer.
  split; [|split].
  - intros e ->. reflexivity.
  - intros out -> ->. reflexivity.
  - intros out -> ->. simpl. unfold unlink, of_status, ret.
    replace (tr ++ [ChildProcess_exec cmd; Fs_unlink (filename format)])
      with ((tr ++ [ChildProcess_exec cmd]) ++ [Fs_unlink (filename format)])
      by (now rewrite <- app_assoc).
    replace (tr ++ [ChildProcess_exec cmd; Fs_unlink (filename format);
                    Fs_unlink importFilename])
      with (((tr ++ [ChildProcess_exec cmd]) ++ [Fs_unlink (filename format)])
            ++ [Fs_unlink importFilename])
      by (now rewrite <- !app_assoc).
    destruct (unlink_answer w (tr ++ [ChildProcess_exec cmd]) (filename format));
      destruct (unlink_answer w ((tr ++ [ChildProcess_exec cmd])
                                 ++ [Fs_unlink (filename format)]) importFilename);
      simpl; (split; [reflexivity|]); split; intros H;
      try discriminate H; try (destruct H; discriminate);
      split; reflexivity.
Qed.
End InsertFacts.

Lemma bulkInsert_cleanup_witness :
  let cmd := insert_cmd example_trusted_bcp "[dbo].[t]" "/tmp/in.dat" example_format [TStr "-T"] in
  bulkInsert (failing_world 0 "" "" example_format) example_trusted_bcp "/tmp/in.dat"
             example_format "t" None []
  = (Failed oops, [ChildProcess_exec cmd])
  /\ snd (bulkInsert (example_world "" "" example_format) example_trusted_bcp "/tmp/in.dat"
                     example_format "t" None [])
     = [ChildProcess_exec cmd; Fs_unlink "/home/u/.bcp/fmt.xml"; Fs_unlink "/tmp/in.dat"].
Proof.
  intros cmd. split.
  - destruct (bulkInsert_cleanup (failing_world 0 "" "" example_format)
                example_trusted_bcp "/tmp/in.dat" example_format "t" None [])
      as (Hfail & _ & _).
    exact (Hfail oops eq_refl).
  - destruct (bulkInsert_cleanup (example_world "" "" example_format)
                example_trusted_bcp "/tmp/in.dat" example_format "t" None [])
      as (_ & _ & Hdel).
    destruct (Hdel "" eq_refl eq_refl) as [Htr _]. exact Htr.
Defined.

(** * The column check of prepareBulkInsert *)

Lemma array_indexOf_Some arr x i :
  array_indexOf arr x = Some i -> arr !! i = Some x.
Proof.
  revert i. induction arr as [|y arr IH]; intros i H; [discriminate H|].
  simpl in H. destruct (String.eqb_spec y x) as [->|Hne].
  - now injection H as <-.
  - destruct (array_indexOf arr x) as [n|]; [|discriminate H].
    injection H as <-. simpl. now apply IH.
Qed.

Lemma map_lookup {A B} (g : A -> B) (l : list A) i :
  map g l !! i = g <$> l !! i.
Proof. revert i. induction l as [|x l IH]; intros [|i]; simpl; auto. Qed.

Lemma map_alter_same {A B} (g : A -> B) (h : A -> A) i (l : list A) :
  (forall x, l !! i = Some x -> g (h x) = g x) ->
  map g (alter h i l) = map g l.
Proof.
  revert i. induction l as [|x l IH]; intros [|i] H; simpl; [reflexivity..| |].
  - f_equal. now apply H.
  - f_equal. apply IH. intros y Hy. now apply H.
Qed.

Lemma check_columns_inr names columns :
  forall fs fs',
    map lcname fs = names ->
    check_columns names columns fs = inr fs' ->
    map lcname fs' = names
    /\ map type fs' = map type fs
    /\ map terminator fs' = map terminator fs
    /\ (forall c, In c columns ->
          exists i f', array_indexOf names (toLowerCase c) = Some i
                       /\ fs' !! i = Some f' /\ inImport f' = true)
    /\ (forall i f f', fs !! i = Some f -> fs' !! i = Some f' ->
          inImport f = true -> inImport f' = true)
    /\ (forall i, (forall c, In c columns -> array_indexOf names (toLowerCase c) <> Some i) ->
          fs' !! i = fs !! i).
Proof.
  induction columns as [|c columns IH]; intros fs fs' Hnames H.
  - injection H as <-. repeat split; try assumption.
    + intros c [].
    + intros i f f' Hf Hf'. congruence.
  - simpl in H.
    destruct (array_indexOf names (toLowerCase c)) as [dex|] eqn:Hdex; [|discriminate H].
    fold (mark_column c) in H.
    pose proof (array_indexOf_Some _ _ _ Hdex) as Hn.
    assert (Hx : exists x, fs !! dex = Some x /\ lcname x = toLowerCase c).
    { rewrite <- Hnames, map_lookup in Hn.
      destruct (fs !! dex) as [x|]; [|discriminate Hn].
      injection Hn as Hn. eauto. }
    destruct Hx as (x & Hx & Hlx).
    assert (Hnames1 : map lcname (alter (mark_column c) dex fs) = names).
    { rewrite map_alter_same; [exact Hnames|].
      intros y Hy. rewrite Hx in Hy. injection Hy as <-. now rewrite Hlx. }
    destruct (IH _ _ Hnames1 H) as (H1 & H2 & H3 & H4 & H5 & H6).
    split; [exact H1|]. split; [|split; [|split; [|split]]].
    + rewrite H2. now apply map_alter_same.
    + rewrite H3. now apply map_alter_same.
    + intros c' [<- | Hc']; [|now apply H4].
      assert (Hlen : dex < length fs') .
      { apply lookup_lt_Some in Hx.
        assert (length fs' = length fs) as ->; [|exact Hx].
        rewrite <- (length_map type fs'), H2, length_map. apply length_alter. }
      apply lookup_lt_is_Some in Hlen as [f' Hf'].
      exists dex, f'. split; [exact Hdex|]. split; [exact Hf'|].
      apply (H5 dex (mark_column c x) f'); [|exact Hf' | reflexivity].
      now rewrite list_lookup_alter_eq, Hx.
    + intros i f f' Hf Hf' Hin.
      destruct (decide (dex = i)) as [<-|Hne].
      * apply (H5 dex (mark_column c x) f'); [|exact Hf' | reflexivity].
        now rewrite list_lookup_alter_eq, Hx.
      * apply (H5 i f f'); [|exact Hf' | exact Hin].
        now rewrite list_lookup_alter_ne.
    + intros i Hi. rewrite H6 by (intros c' Hc'; apply Hi; now right).
      apply list_lookup_alter_ne. intros ->. apply (Hi c); [now left | exact Hdex].
Qed.

Lemma check_columns_exact names columns :
  NoDup (map toLowerCase columns) ->
  forall fs fs',
    map lcname fs = names ->
    check_columns names columns fs = inr fs' ->
    forall c, In c columns ->
      exists i f', array_indexOf names (toLowerCase c) = Some i
                   /\ fs' !! i = Some f' /\ name f' = c /\ inImport f' = true.
Proof.
  induction columns as [|c columns IH]; intros Hnd fs fs' Hnames H c' Hc'; [destruct Hc'|].
  simpl in Hnd. apply NoDup_cons in Hnd as [Hnotin Hnd].
  simpl in H.
  destruct (array_indexOf names (toLowerCase c)) as [dex|] eqn:Hdex; [|discriminate H].
  fold (mark_column c) in H.
  pose proof (array_indexOf_Some _ _ _ Hdex) as Hn.
  assert (Hx : exists x, fs !! dex = Some x /\ lcname x = toLowerCase c).
  { rewrite <- Hnames, map_lookup in Hn.
    destruct (fs !! dex) as [x|]; [|discriminate Hn].
    injection Hn as Hn. eauto. }
  destruct Hx as (x & Hx & Hlx).
  assert (Hnames1 : map lcname (alter (mark_column c) dex fs) = names).
  { rewrite map_alter_same; [exact Hnames|].
    intros y Hy. rewrite Hx in Hy. injection Hy as <-. now rewrite Hlx. }
  destruct Hc' as [<- | Hc']; [|exact (IH Hnd _ _ Hnames1 H c' Hc')].
  destruct (check_columns_inr names columns _ _ Hnames1 H) as (_ & _ & _ & _ & _ & H6).
  exists dex, (mark_column c x). split; [exact Hdex|]. split; [|split; reflexivity].
  rewrite H6; [now rewrite list_lookup_alter_eq, Hx|].
  intros c2 Hc2 Hdex2. apply array_indexOf_Some in Hdex2.
  rewrite Hn in Hdex2. injection Hdex2 as Heq.
  apply Hnotin. rewrite Heq. apply list_elem_of_In, in_map. exact Hc2.
Qed.

Section PrepareMore.
Context {host : Host}.
Variable w : World.

(** X17: when [prepareBulkInsert] succeeds, the descriptor bound to the
    handle has the fields of the generated one in the same order, with the
    same types and terminators and names that differ in letter case only;
    every requested column has a field flagged for import whose name
    matches it (and is exactly the requested spelling when no two requested
    columns agree up to case); fields that no column matched are untouched. *)
Theorem prepareBulkInsert_descriptor bcp table columns overrides tr imp tr' :
  prepareBulkInsert w bcp table columns overrides tr = (Ok imp, tr') ->
  exists format tr2,
    formatGenerate w bcp (getQualifiedTable bcp table)
      (js_String (prop (mergeOptions (prepare_defaults w bcp) overrides) "formatFile"))
      (getCommonArgs bcp false)
      (snd (ensureDirectories w
              [js_String (prop (mergeOptions (prepare_defaults w bcp) overrides)
                               "formatFile");
               js_String (prop (mergeOptions (prepare_defaults w bcp) overrides)
                               "importFile")] tr))
    = (Ok format, tr2)
    /\ map type (fields (imp_format imp)) = map type (fields format)
    /\ map terminator (fields (imp_format imp)) = map terminator (fields format)
    /\ map lcname (fields (imp_format imp)) = map lcname (fields format)
    /\ (forall c, In c columns ->
          exists f', In f' (fields (imp_format imp))
                     /\ toLowerCase (name f') = toLowerCase c /\ inImport f' = true)
    /\ (NoDup (map toLowerCase columns) ->
        forall c, In c columns ->
          exists f', In f' (fields (imp_format imp))
                     /\ name f' = c /\ inImport f' = true)
    /\ (forall i,
          (forall c, In c columns ->
             array_indexOf (map lcname (fields format)) (toLowerCase c) <> Some i) ->
          fields (imp_format imp) !! i = fields format !! i).
Proof.
  intros Hrun. unfold prepareBulkInsert in Hrun.
  apply bind_Ok_inv in Hrun as ([] & tr1 & Hdirs & Hrun).
  apply bind_Ok_inv in Hrun as (format & tr2 & Hfmt & Hrun).
  exists format, tr2. rewrite Hdirs. simpl snd.
  split; [exact Hfmt|].
  change (map (fun f => toLowerCase (name f)) (fields format))
    with (map lcname (fields format)) in Hrun.
  destruct (check_columns (map lcname (fields format)) columns (fields format))
    as [c|fs'] eqn:Hchk; [discriminate Hrun|].
  injection Hrun as <- _. simpl imp_format. simpl fields.
  destruct (check_columns_inr _ _ _ _ eq_refl Hchk) as (H1 & H2 & H3 & H4 & _ & H6).
  split; [exact H2|]. split; [exact H3|]. split; [exact H1|].
  split; [|split; [|exact H6]].
  - intros c Hc. destruct (H4 c Hc) as (i & f' & Hi & Hf' & Himp).
    exists f'. split; [apply list_elem_of_In, list_elem_of_lookup; eauto|].
    split; [|exact Himp].
    apply array_indexOf_Some in Hi. rewrite <- H1, map_lookup, Hf' in Hi.
    now injection Hi.
  - intros Hnd c Hc.
    destruct (check_columns_exact _ _ Hnd _ _ eq_refl Hchk c Hc)
      as (i & f' & _ & Hf' & Hname & Himp).
    exists f'. split; [apply list_elem_of_In, list_elem_of_lookup; eauto|].
    now split.
Qed.

(** X18: unlike the export, [prepareBulkInsert] honours the paths the caller
    passes: the descriptor is read from the caller's [formatFile] and the
    handle is bound to the caller's [importFile]; without them both paths
    are the temp path with its suffix. *)
Theorem prepareBulkInsert_paths bcp table columns overrides tr imp tr' :
  prepareBulkInsert w bcp table columns overrides tr = (Ok imp, tr') ->
  (forall ov p, overrides = Some ov -> ov !! "formatFile" = Some (JStr p) ->
     In (FormatFile_fromFile p) tr')
  /\ (forall ov q, overrides = Some ov -> ov !! "importFile" = Some (JStr q) ->
     imp_filename imp = q /\ In (New_ImportFile q) tr')
  /\ (overrides = None ->
     imp_filename imp = tempFile w bcp +:+ "_import.dat"
     /\ In (FormatFile_fromFile (tempFile w bcp +:+ "_format.xml")) tr').
Proof.
  intros Hrun. unfold prepareBulkInsert in Hrun.
  apply bind_Ok_inv in Hrun as ([] & tr1 & Hdirs & Hrun).
  apply bind_Ok_inv in Hrun as (format & tr2 & Hfmt & Hrun).
  apply formatGenerate_Ok in Hfmt.
  destruct (check_columns _ columns (fields format)) as [c|fs']; [discriminate Hrun|].
  injection Hrun as <- <-. simpl imp_filename. rewrite Hfmt.
  assert (Hff : forall f, In (FormatFile_fromFile f)
                    ((tr1 ++ [ChildProcess_exec
                                (format_cmd bcp (getQualifiedTable bcp table) f
                                   (getCommonArgs bcp false));
                              FormatFile_fromFile f]) ++ [New_ImportFile
                       (js_String (prop (mergeOptions (prepare_defaults w bcp) overrides)
                                        "importFile"))])).
  { intros f. apply in_or_app. left. apply in_or_app. right. simpl. tauto. }
  split; [|split].
  - intros ov p -> Hp. unfold prop in *. rewrite mergeOptions_lookup in *.
    unfold prepare_defaults in *. rewrite lookup_insert_eq in *. rewrite Hp in *.
    simpl in *. apply Hff.
  - intros ov q -> Hq. unfold prop. rewrite mergeOptions_lookup.
    unfold prepare_defaults. rewrite lookup_insert_ne by discriminate.
    rewrite lookup_insert_eq, Hq. simpl. split; [reflexivity|].
    apply in_or_app. right. simpl. now left.
  - intros ->. split; [reflexivity|]. apply Hff.
Qed.
End PrepareMore.

Lemma prepareBulkInsert_descriptor_witness :
  let w := example_world "" "" example_format in
  exists imp tr',
    @prepareBulkInsert example_host w example_trusted_bcp "t" ["F1"] None [] = (Ok imp, tr')
    /\ exists f', In f' (fields (imp_format imp)) /\ name f' = "F1" /\ inImport f' = true.
Proof.
  intros w.
  destruct (@prepareBulkInsert example_host w example_trusted_bcp "t" ["F1"] None [])
    as [[imp|e|] tr'] eqn:E; try (vm_compute in E; discriminate E).
  exists imp, tr'. split; [reflexivity|].
  destruct (@prepareBulkInsert_descriptor example_host w _ _ _ _ _ _ _ E)
    as (format & tr2 & _ & _ & _ & _ & _ & Hexact & _).
  apply Hexact; [|now left]. simpl. apply NoDup_singleton.
Defined.

Lemma prepareBulkInsert_paths_witness :
  let w := example_world "" "" example_format in
  let ov : JSObject := <["importFile" := JStr "/data/in.dat"]> ∅ in
  exists imp tr',
    @prepareBulkInsert example_host w example_trusted_bcp "t" ["F1"] (Some ov) []
    = (Ok imp, tr')
    /\ imp_filename imp = "/data/in.dat".
Proof.
  intros w ov.
  destruct (@prepareBulkInsert example_host w example_trusted_bcp "t" ["F1"] (Some ov) [])
    as [[imp|e|] tr'] eqn:E; try (vm_compute in E; discriminate E).
  exists imp, tr'. split; [reflexivity|].
  destruct (@prepareBulkInsert_paths example_host w _ _ _ _ _ _ _ E) as (_ & Himp & _).
  now destruct (Himp ov "/data/in.dat" eq_refl eq_refl).
Defined.

(** * The constructor *)

Lemma str_or_nonempty o dflt : dflt <> "" -> str_or o dflt <> "".
Proof.
  intros Hd. unfold str_or, truthy_str, str_of. destruct o as [s|]; simpl; [|exact Hd].
  destruct (String.eqb_spec s ""); simpl; [exact Hd | assumption].
Qed.

(** X19: a constructed configuration never has an empty executable, kill
    signal, temp directory or schema: a member left out or given as the
    empty string takes its default.  The qualified table name therefore
    always carries a schema part, [dbo] unless another is given. *)
Theorem Bcp_new_defaults TMP options :
  TMP <> "" ->
  exec (Bcp_new TMP options) <> ""
  /\ killSignal (Bcp_new TMP options) <> ""
  /\ tmp (Bcp_new TMP options) <> ""
  /\ schema (Bcp_new TMP options) <> ""
  /\ (truthy_str (o_schema options) = false -> schema (Bcp_new TMP options) = "dbo")
  /\ forall table,
       getQualifiedTable (Bcp_new TMP options) table
       = (if bool_of (o_quotedIdentifiers options) then JSON_stringify else fun s => s)
           ((if truthy_str (o_database options)
             then "[" +:+ str_of (o_database options) +:+ "]." else "")
            +:+ "[" +:+ schema (Bcp_new TMP options) +:+ "].[" +:+ table +:+ "]").
Proof.
  intros HT.
  assert (Hs : schema (Bcp_new TMP options) <> "")
    by (apply str_or_nonempty; discriminate).
  split; [apply str_or_nonempty; discriminate|].
  split; [apply str_or_nonempty; discriminate|].
  split; [apply str_or_nonempty; exact HT|].
  split; [exact Hs|]. split.
  - intros Hf. simpl. unfold str_or. now rewrite Hf.
  - intros table. unfold getQualifiedTable.
    destruct (String.eqb_spec (schema (Bcp_new TMP options)) ""); [contradiction|].
    simpl negb. cbv iota. simpl database. simpl quotedIdentifiers.
    destruct (truthy_str (o_database options));
      destruct (bool_of (o_quotedIdentifiers options));
      rewrite ?append_assoc, ?append_nil_l; reflexivity.
Qed.

Lemma Bcp_new_defaults_witness :
  getQualifiedTable
    (Bcp_new "/home/u/.bcp" (example_options (Some "") (Some "sales") None None None None))
    "orders"
  = "[sales].[dbo].[orders]".
Proof.
  destruct (Bcp_new_defaults "/home/u/.bcp"
              (example_options (Some "") (Some "sales") None None None None))
    as (_ & _ & _ & _ & Hdbo & Hq); [discriminate|].
  rewrite Hq, Hdbo; reflexivity.
Defined.
